(** * ExcelGrid: the virtualized grid engine of excel-vba-assistant

    A shallow embedding of the [ExcelGrid] React component
    (frontend/src/App.tsx, second part) and of the one callback of the
    [App] component it talks to ([handleCellChange]).

    JavaScript numbers that hold pixel offsets, indices and widths are
    integer-valued here and modelled by [Z]; [Math.floor (a / b)] for an
    integer [a] and a positive integer [b] is [a / b] ([Z.div] rounds down),
    and [a % b] is [Z.rem a b] (sign of the dividend). *)

From Stdlib Require Import ZArith String Ascii List Lia Bool.
From Stdlib Require Import DecimalString Decimal DecimalZ DecimalFacts.
From Stdlib Require Import Sorting.Sorted.
From stdpp Require Import base option list gmap.
From Equations Require Import Equations.
Import ListNotations.

Local Open Scope Z_scope.

(** ** JavaScript primitives used by the component *)

Module Js.

(** [String.fromCharCode code] for a code unit below 256. *)
Definition String_fromCharCode (code : Z) : ascii :=
  ascii_of_N (Z.to_N code).

(** [Math.floor (a / b)] on integers, [b > 0]. *)
Definition Math_floor_div (a b : Z) : Z := a / b.

(** [Math.ceil (a / b)] on integers, [b > 0]. *)
Definition Math_ceil_div (a b : Z) : Z := - ((- a) / b).

(** Number-to-string conversion of a template literal, for an integer
    below 10^21 in absolute value: the decimal numeral, no leading zero. *)
Definition Number_toString (n : Z) : string :=
  NilZero.string_of_int (Z.to_int n).

(** [Array.from ({ length: len }, (_, i) => f i)]: a negative length
    counts as zero. *)
Definition Array_from {A} (len : Z) (f : Z -> A) : list A :=
  List.map (fun i => f (Z.of_nat i)) (seq 0 (Z.to_nat len)).

End Js.

(** ** Cell reference formatting *)

Section CellRef.
Local Open Scope string_scope.

(** The [while (num >= 0)] loop of [getColumnName]; [name] and [num] are
    the two local variables. *)
Equations? getColumnName_loop (name : string) (num : Z) : string
  by wf (Z.to_nat (num + 1)) lt :=
  getColumnName_loop name num with Z_ge_dec num 0 => {
    | left _ =>
        getColumnName_loop
          (String (Js.String_fromCharCode (65 + Z.rem num 26)) name)
          (Js.Math_floor_div num 26 - 1)
    | right _ => name
  }.
Proof.
  unfold Js.Math_floor_div.
  assert (num / 26 <= num) by (apply Z.div_le_upper_bound; lia).
  assert (0 <= num / 26) by (apply Z.div_pos; lia).
  lia.
Qed.

Definition getColumnName (index : Z) : string :=
  getColumnName_loop "" index.

Definition getCellRef (row col : Z) : string :=
  getColumnName col ++ Js.Number_toString (row + 1).

End CellRef.


(** ** Configuration *)

Definition CELL_HEIGHT : Z := 25.
Definition DEFAULT_CELL_WIDTH : Z := 100.
Definition MIN_CELL_WIDTH : Z := 50.
Definition ROW_HEADER_WIDTH : Z := 60.
Definition VISIBLE_BUFFER : Z := 5.

(** ** Data model *)

(** [props.data : string[][]]. A hole left by a write past the end of a row
    reads as [undefined]; every read of the component goes through
    [data[row]?.[col] || ''], so a hole is kept as the empty string. *)
Abbreviation Grid := (list (list string)).

(** [{ row, col }] *)
Module CellPos.
Record t : Type := mk { row : Z; col : Z }.
End CellPos.

(** [interface CellSelection { start; end }] *)
Module CellSelection.
Record t : Type := mk { start : CellPos.t; end_ : CellPos.t }.
End CellSelection.

(** [{ x, y }] of [scrollPosition] *)
Module ScrollPosition.
Record t : Type := mk { x : Z; y : Z }.
End ScrollPosition.

(** The value of [visibleRange]. *)
Module VisibleRange.
Record t : Type := mk { startRow : Z; endRow : Z; startCol : Z; endCol : Z }.
End VisibleRange.

(** The DOM element behind [scrollContainerRef]: only its client size is
    read. *)
Record Container : Type := { clientWidth : Z; clientHeight : Z }.

(** A JavaScript object held in a state cell: React compares dependencies
    with [Object.is], that is by identity for objects. [oid] is the
    identity, [val] the content. *)
Record Obj (A : Type) : Type := { oid : nat; val : A }.
Arguments oid {A} _.
Arguments val {A} _.

(** [data[i]] on an array. *)
Definition array_get {A} (l : list A) (i : Z) : option A :=
  if i <? 0 then None else l !! Z.to_nat i.

(** [row[col] = value] on an array of strings: inside the array the element
    is replaced, past the end the array grows up to [col]; a negative [col]
    is no index, the elements stay as they are. *)
Definition array_set (l : list string) (i : Z) (v : string) : list string :=
  if i <? 0 then l
  else if i <? Z.of_nat (length l) then <[Z.to_nat i := v]> l
  else l ++ replicate (Z.to_nat i - length l)%nat EmptyString ++ [v].

Definition totalRows (data : Grid) : Z := Z.of_nat (length data).

(** [Math.max(...data.map(row => row.length), 0)] *)
Definition totalCols (data : Grid) : Z :=
  fold_right Z.max 0 (List.map (fun row => Z.of_nat (length row)) data).

(** [data[row]?.[col] || ''] *)
Definition cellValue (data : Grid) (row col : Z) : string :=
  match array_get data row with
  | None => EmptyString
  | Some r => match array_get r col with
              | None => EmptyString
              | Some v => v
              end
  end.

(** ** Column layout *)

(** [columnWidths[col] || DEFAULT_CELL_WIDTH]: a missing entry and a zero
    are both falsy. *)
Definition colWidthOf (columnWidths : gmap Z Z) (col : Z) : Z :=
  match columnWidths !! col with
  | Some w => if w =? 0 then DEFAULT_CELL_WIDTH else w
  | None => DEFAULT_CELL_WIDTH
  end.

(** [getColumnLeft]: [for (i = 0; i < col; i++) left += width i]. *)
Definition getColumnLeft (columnWidths : gmap Z Z) (col : Z) : Z :=
  fold_left (fun left i => left + colWidthOf columnWidths (Z.of_nat i))
            (seq 0 (Z.to_nat col)) 0.

(** [totalWidth] *)
Definition totalWidth (columnWidths : gmap Z Z) (data : Grid) : Z :=
  getColumnLeft columnWidths (totalCols data).

(** ** Viewport model *)

(** The local variables of the column loop of [visibleRange]. *)
Module ColScan.
Record t : Type :=
  mk { startCol : Z; endCol : Z; accumulatedWidth : Z; startFound : bool }.
End ColScan.

(** The [for (col = 0; col < totalCols; col++)] loop with its [break];
    [n] counts the iterations that remain, [col] is the loop variable. *)
Fixpoint scanColumns (scrollX containerWidth : Z) (columnWidths : gmap Z Z)
    (n : nat) (col : Z) (s : ColScan.t) : ColScan.t :=
  match n with
  | O => s
  | S n' =>
      let colWidth := colWidthOf columnWidths col in
      let s1 :=
        if negb (ColScan.startFound s)
           && (ColScan.accumulatedWidth s + colWidth >? scrollX)
        then ColScan.mk (Z.max 0 (col - VISIBLE_BUFFER)) (ColScan.endCol s)
                        (ColScan.accumulatedWidth s) true
        else s in
      if ColScan.accumulatedWidth s1
           >? scrollX + containerWidth + VISIBLE_BUFFER * DEFAULT_CELL_WIDTH
      then ColScan.mk (ColScan.startCol s1) col
                      (ColScan.accumulatedWidth s1) (ColScan.startFound s1)
      else scanColumns scrollX containerWidth columnWidths n' (col + 1)
             (ColScan.mk (ColScan.startCol s1) (ColScan.endCol s1)
                         (ColScan.accumulatedWidth s1 + colWidth)
                         (ColScan.startFound s1))
  end.

(** The body of the [useMemo] that computes [visibleRange]; [current] is
    [scrollContainerRef.current]. *)
Definition visibleRange (current : option Container)
    (scrollPosition : ScrollPosition.t) (totalRows totalCols : Z)
    (columnWidths : gmap Z Z) : VisibleRange.t :=
  match current with
  | None => VisibleRange.mk 0 50 0 20
  | Some el =>
      let containerHeight := clientHeight el - CELL_HEIGHT in
      let containerWidth := clientWidth el - ROW_HEADER_WIDTH in
      let startRow :=
        Z.max 0 (Js.Math_floor_div (ScrollPosition.y scrollPosition) CELL_HEIGHT
                 - VISIBLE_BUFFER) in
      let endRow :=
        Z.min totalRows
              (Js.Math_ceil_div (ScrollPosition.y scrollPosition + containerHeight)
                                CELL_HEIGHT + VISIBLE_BUFFER) in
      let s := scanColumns (ScrollPosition.x scrollPosition) containerWidth
                 columnWidths (Z.to_nat totalCols) 0
                 (ColScan.mk 0 0 0 false) in
      let endCol := if ColScan.endCol s =? 0 then totalCols else ColScan.endCol s in
      VisibleRange.mk startRow endRow (ColScan.startCol s) endCol
  end.

(** ** Component state *)

(** The nine [useState] cells of [ExcelGrid]. The cells that hold an object
    on which a dependency array relies carry the object's identity. *)
Record State : Type := {
  columnWidths : Obj (gmap Z Z);
  selection : option CellSelection.t;
  isSelecting : bool;
  editingCell : option (Obj CellPos.t);
  editValue : string;
  scrollPosition : Obj ScrollPosition.t;
  resizingColumn : option Z;
  resizeStartX : Z;
  resizeStartWidth : Z
}.

(** What the closure [saveEdit] reads: its dependency array lists all of
    it, [[editingCell, editValue, onCellChange]]. *)
Record SaveEditClosure : Type := {
  se_editingCell : option (Obj CellPos.t);
  se_editValue : string
}.

(** What the closure [handleMouseDown] reads: [editingCell], and the
    [saveEdit] of the render that created the closure. Its dependency
    array is [[editingCell, onSelectionChange]]: [saveEdit] is not in it. *)
Record MouseDownClosure : Type := {
  md_editingCell : option (Obj CellPos.t);
  md_saveEdit : SaveEditClosure
}.

(** The dependencies of the [useMemo] of [visibleRange]:
    [[scrollPosition, totalRows, totalCols, columnWidths]]. *)
Record RangeDeps : Type := {
  rd_scrollPosition : nat;
  rd_totalRows : Z;
  rd_totalCols : Z;
  rd_columnWidths : nat
}.

(** A memoized hook value with the dependencies it was computed for. *)
Record Memo (D V : Type) : Type := { deps : D; value : V }.
Arguments deps {D V} _.
Arguments value {D V} _.

(** Everything an event handler of the grid can read or change.
    - [sheet]: the [data] array of the active sheet in the session of
      [App], if that sheet exists and has one; [App] passes
      [currentSheet?.data || []] as [props.data] and writes into the same
      array;
    - [onCellChange], [onSelectionChange]: whether the optional props are
      supplied (their identity is taken as fixed);
    - [cellChanges], [selectionChanges]: the calls made so far to the two
      callbacks, oldest first;
    - [st]: the state cells; [heap]: the next fresh object identity;
    - [scrollContainerRef]: the ref, [None] until the first commit;
    - [memo_visibleRange], [memo_handleMouseDown]: the two memoized hooks
      whose dependency arrays do not cover all they read. Every other
      [useCallback] lists all it reads, so it sees the current state. *)
Record World : Type := {
  sheet : option Grid;
  onCellChange : bool;
  onSelectionChange : bool;
  cellChanges : list (Z * Z * string);
  selectionChanges : list CellSelection.t;
  st : State;
  heap : nat;
  scrollContainerRef : option Container;
  memo_visibleRange : Memo RangeDeps VisibleRange.t;
  memo_handleMouseDown : Memo (option nat) MouseDownClosure
}.

(** [props.data] *)
Definition data (w : World) : Grid := default [] (sheet w).

Definition with_st (f : State -> State) (w : World) : World :=
  {| sheet := sheet w; onCellChange := onCellChange w;
     onSelectionChange := onSelectionChange w;
     cellChanges := cellChanges w; selectionChanges := selectionChanges w;
     st := f (st w); heap := heap w;
     scrollContainerRef := scrollContainerRef w;
     memo_visibleRange := memo_visibleRange w;
     memo_handleMouseDown := memo_handleMouseDown w |}.

(** ** Handlers as state transformers

    A handler runs to completion on the world; [None] is an uncaught
    [TypeError]. *)

Definition M (A : Type) : Type := World -> option (A * World).

#[global] Instance M_ret : MRet M := fun A a w => Some (a, w).

#[global] Instance M_bind : MBind M := fun A B k m w =>
  match m w with
  | Some (a, w') => k a w'
  | None => None
  end.

Definition modify (f : World -> World) : M unit := fun w => Some (tt, f w).

Definition skip : M unit := mret tt.

(** The state setters. *)
Definition setColumnWidths (v : Obj (gmap Z Z)) : M unit :=
  modify (with_st (fun s =>
    {| columnWidths := v; selection := selection s;
       isSelecting := isSelecting s; editingCell := editingCell s;
       editValue := editValue s; scrollPosition := scrollPosition s;
       resizingColumn := resizingColumn s; resizeStartX := resizeStartX s;
       resizeStartWidth := resizeStartWidth s |})).

Definition setSelection (v : option CellSelection.t) : M unit :=
  modify (with_st (fun s =>
    {| columnWidths := columnWidths s; selection := v;
       isSelecting := isSelecting s; editingCell := editingCell s;
       editValue := editValue s; scrollPosition := scrollPosition s;
       resizingColumn := resizingColumn s; resizeStartX := resizeStartX s;
       resizeStartWidth := resizeStartWidth s |})).

Definition setIsSelecting (v : bool) : M unit :=
  modify (with_st (fun s =>
    {| columnWidths := columnWidths s; selection := selection s;
       isSelecting := v; editingCell := editingCell s;
       editValue := editValue s; scrollPosition := scrollPosition s;
       resizingColumn := resizingColumn s; resizeStartX := resizeStartX s;
       resizeStartWidth := resizeStartWidth s |})).

Definition setEditingCell (v : option (Obj CellPos.t)) : M unit :=
  modify (with_st (fun s =>
    {| columnWidths := columnWidths s; selection := selection s;
       isSelecting := isSelecting s; editingCell := v;
       editValue := editValue s; scrollPosition := scrollPosition s;
       resizingColumn := resizingColumn s; resizeStartX := resizeStartX s;
       resizeStartWidth := resizeStartWidth s |})).

Definition setEditValue (v : string) : M unit :=
  modify (with_st (fun s =>
    {| columnWidths := columnWidths s; selection := selection s;
       isSelecting := isSelecting s; editingCell := editingCell s;
       editValue := v; scrollPosition := scrollPosition s;
       resizingColumn := resizingColumn s; resizeStartX := resizeStartX s;
       resizeStartWidth := resizeStartWidth s |})).

Definition setScrollPosition (v : Obj ScrollPosition.t) : M unit :=
  modify (with_st (fun s =>
    {| columnWidths := columnWidths s; selection := selection s;
       isSelecting := isSelecting s; editingCell := editingCell s;
       editValue := editValue s; scrollPosition := v;
       resizingColumn := resizingColumn s; resizeStartX := resizeStartX s;
       resizeStartWidth := resizeStartWidth s |})).

Definition setResizingColumn (v : option Z) : M unit :=
  modify (with_st (fun s =>
    {| columnWidths := columnWidths s; selection := selection s;
       isSelecting := isSelecting s; editingCell := editingCell s;
       editValue := editValue s; scrollPosition := scrollPosition s;
       resizingColumn := v; resizeStartX := resizeStartX s;
       resizeStartWidth := resizeStartWidth s |})).

Definition setResizeStartX (v : Z) : M unit :=
  modify (with_st (fun s =>
    {| columnWidths := columnWidths s; selection := selection s;
       isSelecting := isSelecting s; editingCell := editingCell s;
       editValue := editValue s; scrollPosition := scrollPosition s;
       resizingColumn := resizingColumn s; resizeStartX := v;
       resizeStartWidth := resizeStartWidth s |})).

Definition setResizeStartWidth (v : Z) : M unit :=
  modify (with_st (fun s =>
    {| columnWidths := columnWidths s; selection := selection s;
       isSelecting := isSelecting s; editingCell := editingCell s;
       editValue := editValue s; scrollPosition := scrollPosition s;
       resizingColumn := resizingColumn s; resizeStartX := resizeStartX s;
       resizeStartWidth := v |})).

(** An object literal: a fresh identity. *)
Definition new_obj {A} (a : A) : M (Obj A) :=
  fun w =>
    Some ({| oid := heap w; val := a |},
          {| sheet := sheet w; onCellChange := onCellChange w;
             onSelectionChange := onSelectionChange w;
             cellChanges := cellChanges w;
             selectionChanges := selectionChanges w;
             st := st w; heap := S (heap w);
             scrollContainerRef := scrollContainerRef w;
             memo_visibleRange := memo_visibleRange w;
             memo_handleMouseDown := memo_handleMouseDown w |}).

Definition gets {A} (f : World -> A) : M A := fun w => Some (f w, w).

(** ** The collaborator: [handleCellChange] of [App]

    [setSession (prev => { ...; sheets[sheetIndex].data![row][col] = value })]:
    the write is made in place in the array that is also [props.data]. It is
    skipped when the active sheet is not found or has no data, and it raises
    a [TypeError] when [data[row]] is undefined. The debounced network call
    that follows is outside the grid engine. *)
Definition handleCellChange (row col : Z) (value : string) : M unit :=
  fun w =>
    match sheet w with
    | None => Some (tt, w)
    | Some g =>
        match array_get g row with
        | None => None
        | Some r =>
            Some (tt,
                  {| sheet := Some (<[Z.to_nat row := array_set r col value]> g);
                     onCellChange := onCellChange w;
                     onSelectionChange := onSelectionChange w;
                     cellChanges := cellChanges w;
                     selectionChanges := selectionChanges w;
                     st := st w; heap := heap w;
                     scrollContainerRef := scrollContainerRef w;
                     memo_visibleRange := memo_visibleRange w;
                     memo_handleMouseDown := memo_handleMouseDown w |})
        end
    end.

(** A call [onCellChange (row, col, value)] of the prop: it is recorded,
    then the collaborator runs. *)
Definition call_onCellChange (row col : Z) (value : string) : M unit :=
  modify (fun w =>
    {| sheet := sheet w; onCellChange := onCellChange w;
       onSelectionChange := onSelectionChange w;
       cellChanges := cellChanges w ++ [(row, col, value)];
       selectionChanges := selectionChanges w;
       st := st w; heap := heap w;
       scrollContainerRef := scrollContainerRef w;
       memo_visibleRange := memo_visibleRange w;
       memo_handleMouseDown := memo_handleMouseDown w |});;
  handleCellChange row col value.

(** A call [onSelectionChange (selection)] of the prop ([App] only logs
    it). *)
Definition call_onSelectionChange (sel : CellSelection.t) : M unit :=
  modify (fun w =>
    {| sheet := sheet w; onCellChange := onCellChange w;
       onSelectionChange := onSelectionChange w;
       cellChanges := cellChanges w;
       selectionChanges := selectionChanges w ++ [sel];
       st := st w; heap := heap w;
       scrollContainerRef := scrollContainerRef w;
       memo_visibleRange := memo_visibleRange w;
       memo_handleMouseDown := memo_handleMouseDown w |}).

(** ** The event handlers of [ExcelGrid] *)

Definition handleScroll (scrollLeft scrollTop : Z) : M unit :=
  o ← new_obj (ScrollPosition.mk scrollLeft scrollTop);
  setScrollPosition o.

Definition saveEdit (c : SaveEditClosure) : M unit :=
  given ← gets onCellChange;
  match se_editingCell c with
  | Some cell =>
      if (given : bool)
      then call_onCellChange (CellPos.row (val cell)) (CellPos.col (val cell))
                             (se_editValue c)
      else skip
  | None => skip
  end;;
  setEditingCell None;;
  setEditValue EmptyString.

(** The [saveEdit] of the current render. *)
Definition current_saveEdit (s : State) : SaveEditClosure :=
  {| se_editingCell := editingCell s; se_editValue := editValue s |}.

Definition handleMouseDown (c : MouseDownClosure) (row col : Z) : M unit :=
  match md_editingCell c with
  | Some _ => saveEdit (md_saveEdit c)
  | None => skip
  end;;
  let newSelection :=
    CellSelection.mk (CellPos.mk row col) (CellPos.mk row col) in
  setSelection (Some newSelection);;
  setIsSelecting true;;
  given ← gets onSelectionChange;
  if (given : bool) then call_onSelectionChange newSelection else skip.

Definition handleMouseMove (row col : Z) : M unit :=
  s ← gets st;
  match isSelecting (s : State), selection s with
  | true, Some sel =>
      let newSelection :=
        CellSelection.mk (CellSelection.start sel) (CellPos.mk row col) in
      setSelection (Some newSelection);;
      given ← gets onSelectionChange;
      if (given : bool) then call_onSelectionChange newSelection else skip
  | _, _ => skip
  end.

Definition handleMouseUp : M unit := setIsSelecting false.

Definition handleDoubleClick (row col : Z) : M unit :=
  cell ← new_obj (CellPos.mk row col);
  setEditingCell (Some cell);;
  d ← gets data;
  setEditValue (cellValue d row col).

Definition handleEditChange (value : string) : M unit := setEditValue value.

Definition handleEditKeyDown (key : string) : M unit :=
  if String.eqb key "Enter" then
    s ← gets st; saveEdit (current_saveEdit s)
  else if String.eqb key "Escape" then
    setEditingCell None;; setEditValue EmptyString
  else skip.

Definition handleColumnResizeStart (col clientX : Z) : M unit :=
  s ← gets st;
  setResizingColumn (Some col);;
  setResizeStartX clientX;;
  setResizeStartWidth (colWidthOf (val (columnWidths s)) col).

Definition handleColumnResize (clientX : Z) : M unit :=
  s ← gets st;
  match resizingColumn (s : State) with
  | Some c =>
      let diff := clientX - resizeStartX s in
      let newWidth := Z.max MIN_CELL_WIDTH (resizeStartWidth s + diff) in
      prev ← gets (fun w => columnWidths (st w));
      o ← new_obj (<[c := newWidth]> (val prev));
      setColumnWidths o
  | None => skip
  end.

Definition handleColumnResizeEnd : M unit := setResizingColumn None.

(** [isCellSelected] *)
Definition isCellSelected (selection : option CellSelection.t) (row col : Z)
  : bool :=
  match selection with
  | None => false
  | Some sel =>
      let minRow := Z.min (CellPos.row (CellSelection.start sel))
                          (CellPos.row (CellSelection.end_ sel)) in
      let maxRow := Z.max (CellPos.row (CellSelection.start sel))
                          (CellPos.row (CellSelection.end_ sel)) in
      let minCol := Z.min (CellPos.col (CellSelection.start sel))
                          (CellPos.col (CellSelection.end_ sel)) in
      let maxCol := Z.max (CellPos.col (CellSelection.start sel))
                          (CellPos.col (CellSelection.end_ sel)) in
      (row >=? minRow) && (row <=? maxRow) && (col >=? minCol) && (col <=? maxCol)
  end.

(** ** Rendering *)

(** What [renderCell] puts on the screen for one cell. The style overrides
    looked up in [formatData] under [cd_cellRef] only change the
    presentation and are left out. *)
Record CellDescriptor : Type := {
  cd_row : Z;
  cd_col : Z;
  cd_cellRef : string;
  cd_left : Z;
  cd_top : Z;
  cd_width : Z;
  cd_height : Z;
  cd_value : string;
  cd_isSelected : bool;
  cd_isEditing : bool
}.

Definition renderCell (w : World) (row col : Z) : CellDescriptor :=
  let s := st w in
  {| cd_row := row;
     cd_col := col;
     cd_cellRef := getCellRef row col;
     cd_left := getColumnLeft (val (columnWidths s)) col;
     cd_top := row * CELL_HEIGHT;
     cd_width := colWidthOf (val (columnWidths s)) col;
     cd_height := CELL_HEIGHT;
     cd_value := cellValue (data w) row col;
     cd_isSelected := isCellSelected (selection s) row col;
     cd_isEditing :=
       match editingCell s with
       | Some cell => (CellPos.row (val cell) =? row)
                      && (CellPos.col (val cell) =? col)
       | None => false
       end |}.

(** The cell loop of the returned JSX: two nested
    [Array.from ({ length: end - start }, (_, i) => start + i)], each cell
    handed to [f]. *)
Definition cellLoop {A} (r : VisibleRange.t) (f : Z -> Z -> A) : list A :=
  concat
    (Js.Array_from (VisibleRange.endRow r - VisibleRange.startRow r)
       (fun i =>
          let row := VisibleRange.startRow r + i in
          Js.Array_from (VisibleRange.endCol r - VisibleRange.startCol r)
            (fun j => f row (VisibleRange.startCol r + j)))).

(** The cells drawn by the current render. *)
Definition render (w : World) : list CellDescriptor :=
  cellLoop (value (memo_visibleRange w)) (renderCell w).

(** ** Hooks: what a render keeps and what it recomputes *)

Definition rangeDeps (w : World) : RangeDeps :=
  {| rd_scrollPosition := oid (scrollPosition (st w));
     rd_totalRows := totalRows (data w);
     rd_totalCols := totalCols (data w);
     rd_columnWidths := oid (columnWidths (st w)) |}.

Definition rangeDeps_same (a b : RangeDeps) : bool :=
  (rd_scrollPosition a =? rd_scrollPosition b)%nat
  && (rd_totalRows a =? rd_totalRows b)
  && (rd_totalCols a =? rd_totalCols b)
  && (rd_columnWidths a =? rd_columnWidths b)%nat.

Definition computeVisibleRange (w : World) : VisibleRange.t :=
  visibleRange (scrollContainerRef w) (val (scrollPosition (st w)))
               (totalRows (data w)) (totalCols (data w))
               (val (columnWidths (st w))).

(** The dependencies of [handleMouseDown]: the identity of [editingCell]
    ([None] for [null]). *)
Definition mouseDownDeps (w : World) : option nat :=
  option_map oid (editingCell (st w)).

Definition option_nat_same (a b : option nat) : bool :=
  match a, b with
  | None, None => true
  | Some i, Some j => (i =? j)%nat
  | _, _ => false
  end.

Definition current_handleMouseDown (w : World) : MouseDownClosure :=
  {| md_editingCell := editingCell (st w);
     md_saveEdit := current_saveEdit (st w) |}.

(** One render of the component: [useMemo] and [useCallback] keep the value
    of the previous render unless a dependency changed. *)
Definition rerender (w : World) : World :=
  {| sheet := sheet w; onCellChange := onCellChange w;
     onSelectionChange := onSelectionChange w;
     cellChanges := cellChanges w; selectionChanges := selectionChanges w;
     st := st w; heap := heap w;
     scrollContainerRef := scrollContainerRef w;
     memo_visibleRange :=
       if rangeDeps_same (deps (memo_visibleRange w)) (rangeDeps w)
       then memo_visibleRange w
       else {| deps := rangeDeps w; value := computeVisibleRange w |};
     memo_handleMouseDown :=
       if option_nat_same (deps (memo_handleMouseDown w)) (mouseDownDeps w)
       then memo_handleMouseDown w
       else {| deps := mouseDownDeps w; value := current_handleMouseDown w |}
  |}.

Definition initialState : State :=
  {| columnWidths := {| oid := 0; val := ∅ |};
     selection := None;
     isSelecting := false;
     editingCell := None;
     editValue := EmptyString;
     scrollPosition := {| oid := 1; val := ScrollPosition.mk 0 0 |};
     resizingColumn := None;
     resizeStartX := 0;
     resizeStartWidth := 0 |}.

(** The component after its first render and commit. During that render
    [scrollContainerRef.current] is still [null]; the commit attaches the
    element [el]. *)
Definition mount (sheet : option Grid) (onCellChange onSelectionChange : bool)
    (el : Container) : World :=
  let w0 :=
    {| sheet := sheet; onCellChange := onCellChange;
       onSelectionChange := onSelectionChange;
       cellChanges := []; selectionChanges := [];
       st := initialState; heap := 2;
       scrollContainerRef := None;
       memo_visibleRange :=
         {| deps := {| rd_scrollPosition := 1;
                       rd_totalRows := totalRows (default [] sheet);
                       rd_totalCols := totalCols (default [] sheet);
                       rd_columnWidths := 0 |};
            value := visibleRange None (ScrollPosition.mk 0 0)
                       (totalRows (default [] sheet))
                       (totalCols (default [] sheet)) ∅ |};
       memo_handleMouseDown :=
         {| deps := None;
            value := {| md_editingCell := None;
                        md_saveEdit := current_saveEdit initialState |} |} |} in
  {| sheet := sheet; onCellChange := onCellChange;
     onSelectionChange := onSelectionChange;
     cellChanges := []; selectionChanges := [];
     st := initialState; heap := 2;
     scrollContainerRef := Some el;
     memo_visibleRange := memo_visibleRange w0;
     memo_handleMouseDown := memo_handleMouseDown w0 |}.

(** ** Events *)

Inductive Event : Type :=
| Scroll (scrollLeft scrollTop : Z)
| MouseDown (row col : Z)
| MouseMove (row col : Z)
| MouseUp
| DoubleClick (row col : Z)
| EditChange (value : string)
| EditKeyDown (key : string)
| EditBlur
| ColumnResizeStart (col clientX : Z)
| DocumentMouseMove (clientX : Z)
| DocumentMouseUp
| Layout (el : Container).

(** The handler the JSX binds to each event. [onBlur] of the editor is
    [saveEdit]; the two document listeners are attached while a column is
    being resized; [Layout] is a change of size of the scroll container,
    which no handler observes. *)
Definition handler (e : Event) : M unit :=
  match e with
  | Scroll scrollLeft scrollTop => handleScroll scrollLeft scrollTop
  | MouseDown row col =>
      c ← gets (fun w => value (memo_handleMouseDown w));
      handleMouseDown c row col
  | MouseMove row col => handleMouseMove row col
  | MouseUp => handleMouseUp
  | DoubleClick row col => handleDoubleClick row col
  | EditChange v => handleEditChange v
  | EditKeyDown key => handleEditKeyDown key
  | EditBlur => s ← gets st; saveEdit (current_saveEdit s)
  | ColumnResizeStart col clientX => handleColumnResizeStart col clientX
  | DocumentMouseMove clientX => handleColumnResize clientX
  | DocumentMouseUp => handleColumnResizeEnd
  | Layout el =>
      modify (fun w =>
        {| sheet := sheet w; onCellChange := onCellChange w;
           onSelectionChange := onSelectionChange w;
           cellChanges := cellChanges w;
           selectionChanges := selectionChanges w;
           st := st w; heap := heap w;
           scrollContainerRef := Some el;
           memo_visibleRange := memo_visibleRange w;
           memo_handleMouseDown := memo_handleMouseDown w |})
  end.

(** One event: the handler runs to completion, then the component renders
    again. *)
Definition dispatch (e : Event) (w : World) : option World :=
  match handler e w with
  | Some (_, w') => Some (rerender w')
  | None => None
  end.

Fixpoint run (events : list Event) (w : World) : option World :=
  match events with
  | [] => Some w
  | e :: rest =>
      match dispatch e w with
      | Some w' => run rest w'
      | None => None
      end
  end.

(** ** Reference notions the properties are stated with *)

(** Bijective base-26 numeration: ['A'] is the digit 1, ..., ['Z'] the digit
    26, most significant digit first, and there is no digit zero. *)
Definition letter_digit (c : ascii) : Z := Z.of_N (N_of_ascii c) - 64.

Definition is_letter (c : ascii) : bool :=
  (1 <=? letter_digit c) && (letter_digit c <=? 26).

Fixpoint all_letters (s : string) : bool :=
  match s with
  | EmptyString => true
  | String c s' => is_letter c && all_letters s'
  end.

Fixpoint label_value_from (acc : Z) (s : string) : Z :=
  match s with
  | EmptyString => acc
  | String c s' => label_value_from (26 * acc + letter_digit c) s'
  end.

(** The number a label stands for, counted from 1: [A = 1], [Z = 26],
    [AA = 27]. *)
Definition label_value (s : string) : Z := label_value_from 0 s.

(** The integer a decimal numeral stands for. *)
Definition parse_decimal (s : string) : option Z :=
  option_map Z.of_int (NilZero.int_of_string s).

(** [isCellSelected (row, col)] after a press on [a] and a move to [b],
    started from [w]; [None] if the press does not return. *)
Definition contains_after_drag (w : World) (a b : CellPos.t) (row col : Z)
  : option bool :=
  match run [MouseDown (CellPos.row a) (CellPos.col a);
             MouseMove (CellPos.row b) (CellPos.col b)] w with
  | Some w' => Some (isCellSelected (selection (st w')) row col)
  | None => None
  end.

(** Membership in the rectangle spanned by two corners, bounds included. *)
Definition in_rectangle (a b : CellPos.t) (row col : Z) : Prop :=
  Z.min (CellPos.row a) (CellPos.row b) <= row
  <= Z.max (CellPos.row a) (CellPos.row b)
  /\ Z.min (CellPos.col a) (CellPos.col b) <= col
     <= Z.max (CellPos.col a) (CellPos.col b).

(** The memoized [handleMouseDown] agrees with the state on what its
    dependency array covers, and identities in use are below [heap]. *)
Definition hooks_coherent (w : World) : Prop :=
  deps (memo_handleMouseDown w) = mouseDownDeps w
  /\ md_editingCell (value (memo_handleMouseDown w)) = editingCell (st w)
  /\ se_editingCell (md_saveEdit (value (memo_handleMouseDown w)))
     = editingCell (st w)
  /\ (forall cell, editingCell (st w) = Some cell -> (oid cell < heap w)%nat).

(** Whether the pointer button is held over the grid after an event. *)
Definition button_after (down : bool) (e : Event) : bool :=
  match e with
  | MouseDown _ _ => true
  | MouseUp => false
  | _ => down
  end.

(** The order in which a browser delivers a double click: [dblclick] comes
    after the second [mouseup], so no [DoubleClick] arrives while the
    button is held. *)
Fixpoint double_click_after_release (down : bool) (events : list Event)
  : bool :=
  match events with
  | [] => true
  | e :: rest =>
      match e with
      | DoubleClick _ _ => negb down
      | _ => true
      end && double_click_after_release (button_after down e) rest
  end.

(** Every stored column width is at least the floor. *)
Definition widths_above_floor (columnWidths : gmap Z Z) : Prop :=
  forall col width, columnWidths !! col = Some width -> MIN_CELL_WIDTH <= width.

(** A single-cell selection. *)
Definition single_cell (row col : Z) : CellSelection.t :=
  CellSelection.mk (CellPos.mk row col) (CellPos.mk row col).

(** With the pointer button [down] or not: a drag is in progress only
    while the button is held, and no edit session is open while it is. *)
Definition drag_excludes_edit (down : bool) (w : World) : Prop :=
  (isSelecting (st w) = true -> down = true)
  /\ (editingCell (st w) <> None -> down = false).

(** The button after a sequence of events. *)
Definition button_after_all (down : bool) (events : list Event) : bool :=
  fold_left button_after events down.

(** The memoized range is the one computed from the current scroll
    position, grid size and column widths, with whatever the ref held when
    it was computed. *)
Definition range_memo_coherent (w : World) : Prop :=
  deps (memo_visibleRange w) = rangeDeps w
  /\ (exists current,
        value (memo_visibleRange w)
        = visibleRange current (val (scrollPosition (st w)))
                       (totalRows (data w)) (totalCols (data w))
                       (val (columnWidths (st w))))
  /\ (oid (scrollPosition (st w)) < heap w)%nat
  /\ (oid (columnWidths (st w)) < heap w)%nat.

(** ** Further notions of the grid *)

(** [totalHeight] *)
Definition totalHeight (data : Grid) : Z := totalRows data * CELL_HEIGHT.

(** Two drawn cells share a pixel: their rectangles
    [left, left + width) x [top, top + height) meet. *)
Definition overlap (a b : CellDescriptor) : Prop :=
  cd_left a < cd_left b + cd_width b
  /\ cd_left b < cd_left a + cd_width a
  /\ cd_top a < cd_top b + cd_height b
  /\ cd_top b < cd_top a + cd_height a.

(** The worlds the mounted component can be in. *)
Definition reachable (w : World) : Prop :=
  exists sheet0 cb1 cb2 el events,
    run events (mount sheet0 cb1 cb2 el) = Some w.

(** Row-major order on cell coordinates. *)
Definition row_major_lt (a b : Z * Z) : Prop :=
  fst a < fst b \/ (fst a = fst b /\ snd a < snd b).

(** The React key of a drawn cell: its coordinates. *)
Definition cd_key (d : CellDescriptor) : Z * Z := (cd_row d, cd_col d).

(** The memoized range was computed with the container in place, from
    the current scroll position, grid size and column widths. *)
Definition range_memo_measured (w : World) : Prop :=
  scrollContainerRef w <> None
  /\ deps (memo_visibleRange w) = rangeDeps w
  /\ (exists el,
        value (memo_visibleRange w)
        = visibleRange (Some el) (val (scrollPosition (st w)))
                       (totalRows (data w)) (totalCols (data w))
                       (val (columnWidths (st w))))
  /\ (oid (scrollPosition (st w)) < heap w)%nat
  /\ (oid (columnWidths (st w)) < heap w)%nat.

(** A pointer move over each cell of a list, in order. *)
Definition moves (cells : list (Z * Z)) : list Event :=
  List.map (fun cell => MouseMove (fst cell) (snd cell)) cells.

(** The last selection reported through [onSelectionChange], if any. *)
Definition last_reported (w : World) : option CellSelection.t :=
  List.last (List.map Some (selectionChanges w)) None.

(** ** The [App] component: session clock

    Dates are kept as milliseconds ([getTime ()]). *)

Definition SESSION_TIMEOUT : Z := 36000.
Definition WARNING_TIME : Z := 300.

(** [s.padStart (targetLength, fill)] for a one-character [fill]. *)
Definition String_padStart (targetLength : nat) (fill : ascii) (s : string)
  : string :=
  (string_of_list_ascii (repeat fill (targetLength - String.length s)) ++ s)%string.

(** The countdown shown by [SessionTimeoutWarning]:
    [{minutes}:{seconds.toString().padStart(2, '0')}]. *)
Definition countdownText (timeLeft : Z) : string :=
  let minutes := Js.Math_floor_div timeLeft 60 in
  let seconds := Z.rem timeLeft 60 in
  (Js.Number_toString minutes ++ ":"
   ++ String_padStart 2 "0" (Js.Number_toString seconds))%string.

(** [getTimeRemaining], with [now] for [new Date ()]. *)
Definition getTimeRemaining (sessionStartTime : option Z) (now : Z) : string :=
  match sessionStartTime with
  | None => EmptyString
  | Some start =>
      let elapsed := Js.Math_floor_div (now - start) 1000 in
      let remaining := SESSION_TIMEOUT - elapsed in
      let minutes := Js.Math_floor_div remaining 60 in
      let hours := Js.Math_floor_div minutes 60 in
      if hours >? 0 then
        (Js.Number_toString hours ++ "h "
         ++ Js.Number_toString (Z.rem minutes 60) ++ "m restantes")%string
      else if minutes >? 0 then
        (Js.Number_toString minutes ++ "m restantes")%string
      else
        (Js.Number_toString remaining ++ "s restantes")%string
  end.

(** The state cells of [App] that the session clock reads and writes. *)
Record AppState (Session ChatMessage : Type) : Type := {
  session : option Session;
  messages : list ChatMessage;
  error : option string;
  sessionStartTime : option Z;
  showTimeoutWarning : bool;
  timeLeft : Z
}.
Arguments session {Session ChatMessage} _.
Arguments messages {Session ChatMessage} _.
Arguments error {Session ChatMessage} _.
Arguments sessionStartTime {Session ChatMessage} _.
Arguments showTimeoutWarning {Session ChatMessage} _.
Arguments timeLeft {Session ChatMessage} _.

(** The callback of [setInterval] in the timer effect, run at [now]. The
    effect lists [sessionStartTime] and [showTimeoutWarning] as
    dependencies, so the callback sees their current values; without a
    start time no interval runs. *)
Definition tick {Session ChatMessage} (now : Z)
    (a : AppState Session ChatMessage) : AppState Session ChatMessage :=
  match sessionStartTime a with
  | None => a
  | Some start =>
      let elapsed := Js.Math_floor_div (now - start) 1000 in
      let remaining := SESSION_TIMEOUT - elapsed in
      if remaining <=? 0 then
        {| session := None; messages := [];
           error := Some "Session expirée. Veuillez recharger un fichier."%string;
           sessionStartTime := None; showTimeoutWarning := false;
           timeLeft := timeLeft a |}
      else if (remaining <=? WARNING_TIME) && negb (showTimeoutWarning a) then
        {| session := session a; messages := messages a; error := error a;
           sessionStartTime := sessionStartTime a; showTimeoutWarning := true;
           timeLeft := remaining |}
      else if showTimeoutWarning a then
        {| session := session a; messages := messages a; error := error a;
           sessionStartTime := sessionStartTime a;
           showTimeoutWarning := showTimeoutWarning a;
           timeLeft := remaining |}
      else a
  end.

(** [handleExtendSession] at [now] (its request to the backend is fire and
    forget). *)
Definition handleExtendSession {Session ChatMessage} (now : Z)
    (a : AppState Session ChatMessage) : AppState Session ChatMessage :=
  {| session := session a; messages := messages a; error := error a;
     sessionStartTime := Some now; showTimeoutWarning := false;
     timeLeft := timeLeft a |}.

(** [onClose] of the warning: [() => setShowTimeoutWarning(false)]. *)
Definition dismissWarning {Session ChatMessage}
    (a : AppState Session ChatMessage) : AppState Session ChatMessage :=
  {| session := session a; messages := messages a; error := error a;
     sessionStartTime := sessionStartTime a; showTimeoutWarning := false;
     timeLeft := timeLeft a |}.

(** The close button of the header, once confirmed. *)
Definition closeSession {Session ChatMessage}
    (a : AppState Session ChatMessage) : AppState Session ChatMessage :=
  {| session := None; messages := []; error := error a;
     sessionStartTime := None; showTimeoutWarning := false;
     timeLeft := timeLeft a |}.

Inductive ClockEvent : Type :=
| Tick (now : Z)
| ExtendSession (now : Z)
| DismissWarning
| CloseSession.

Definition clock_step {Session ChatMessage} (e : ClockEvent)
    (a : AppState Session ChatMessage) : AppState Session ChatMessage :=
  match e with
  | Tick now => tick now a
  | ExtendSession now => handleExtendSession now a
  | DismissWarning => dismissWarning a
  | CloseSession => closeSession a
  end.

Definition clock_run {Session ChatMessage} (events : list ClockEvent)
    (a : AppState Session ChatMessage) : AppState Session ChatMessage :=
  fold_left (fun a e => clock_step e a) events a.

(** The time an event carries, if any. *)
Definition event_time (last : Z) (e : ClockEvent) : Z :=
  match e with
  | Tick now | ExtendSession now => now
  | _ => last
  end.

(** The clock does not run backwards along the events. *)
Fixpoint clock_monotone (last : Z) (events : list ClockEvent) : Prop :=
  match events with
  | [] => True
  | e :: rest => last <= event_time last e
                 /\ clock_monotone (event_time last e) rest
  end.

(** The seconds left at [now] of a session started at [start]. *)
Definition remaining_at (start now : Z) : Z :=
  SESSION_TIMEOUT - Js.Math_floor_div (now - start) 1000.

(** ** The [App] component: escaping of the VBA code *)

(** [str.replace (/c/g, by)] for a pattern of one character. *)
Fixpoint String_replaceAll (c : ascii) (by_ : string) (str : string) : string :=
  match str with
  | EmptyString => EmptyString
  | String a rest =>
      if Ascii.eqb a c then (by_ ++ String_replaceAll c by_ rest)%string
      else String a (String_replaceAll c by_ rest)
  end.

(** [escapeHtml] of [highlightVBA]: five replacements, one after the other.
    ["034"] is the double quote, ["039"] the single quote. *)
Definition escapeHtml (str : string) : string :=
  String_replaceAll "039" "&#039;"
    (String_replaceAll "034" "&quot;"
       (String_replaceAll ">" "&gt;"
          (String_replaceAll "<" "&lt;"
             (String_replaceAll "&" "&amp;" str)))).

(** Reading the five entities back, left to right. *)
Fixpoint unescapeHtml (s : string) : string :=
  match s with
  | String "&" (String "a" (String "m" (String "p" (String ";" rest)))) =>
      String "&" (unescapeHtml rest)
  | String "&" (String "l" (String "t" (String ";" rest))) =>
      String "<" (unescapeHtml rest)
  | String "&" (String "g" (String "t" (String ";" rest))) =>
      String ">" (unescapeHtml rest)
  | String "&" (String "q" (String "u" (String "o" (String "t"
      (String ";" rest))))) =>
      String "034" (unescapeHtml rest)
  | String "&" (String "#" (String "0" (String "3" (String "9"
      (String ";" rest))))) =>
      String "039" (unescapeHtml rest)
  | String a rest => String a (unescapeHtml rest)
  | EmptyString => EmptyString
  end.

(** A character that HTML reads as markup or as the end of an attribute. *)
Definition html_special (a : ascii) : bool :=
  Ascii.eqb a "<" || Ascii.eqb a ">" || Ascii.eqb a "034" || Ascii.eqb a "039".

Fixpoint string_forallb (f : ascii -> bool) (s : string) : bool :=
  match s with
  | EmptyString => true
  | String a rest => f a && string_forallb f rest
  end.

(** [code.split ('\n')]: the pieces between line feeds, at least one. *)
Fixpoint String_split_lines (s : string) : list string :=
  match s with
  | EmptyString => [EmptyString]
  | String a rest =>
      if Ascii.eqb a "010" then EmptyString :: String_split_lines rest
      else match String_split_lines rest with
           | line :: lines => String a line :: lines
           | [] => [String a EmptyString]
           end
  end.

(** The line numbers of the gutter of [VBAEditor]:
    [currentCode.split('\n').map((_, index) => index + 1)]. *)
Definition gutter (currentCode : string) : list Z :=
  List.map (fun index => Z.of_nat index + 1)
           (seq 0 (length (String_split_lines currentCode))).

(** ** The [App] component: debounced cell updates *)

(** [`${activeSheet}-${row}-${col}`] *)
Definition cellKey (activeSheet : string) (row col : Z) : string :=
  (activeSheet ++ "-" ++ Js.Number_toString row ++ "-"
   ++ Js.Number_toString col)%string.

(** The body of the request to [/api/update-cell]. *)
Record CellUpdate : Type := {
  sheet_name : string;
  cu_row : Z;
  cu_col : Z;
  cu_value : string
}.

(** What [handleCellChange] keeps beside the session:
    - [updateTimeouts]: [updateTimeouts.current], the timer last set for
      each key;
    - [timers]: the timers of the browser that are set and have neither
      fired nor been cleared, each with the key and the body its callback
      closes over; identifiers are positive, hence truthy;
    - [pendingUpdates]: the state cell;
    - [requests]: the bodies sent so far, oldest first;
    - [updateFailed]: whether [setError] was called by a failed update. *)
Record Debounce : Type := {
  updateTimeouts : gmap string nat;
  timers : gmap nat (string * CellUpdate);
  nextTimer : nat;
  pendingUpdates : gset string;
  requests : list CellUpdate;
  updateFailed : bool
}.

Definition debounce_initial : Debounce :=
  {| updateTimeouts := ∅; timers := ∅; nextTimer := 1;
     pendingUpdates := ∅; requests := []; updateFailed := false |}.

(** [handleCellChange], the part after the write into the session:
    [clearTimeout] of the timer set earlier for the key, the key added to
    [pendingUpdates], a new timer of 500 ms recorded under the key. *)
Definition scheduleUpdate (activeSheet : string) (row col : Z) (value : string)
    (d : Debounce) : Debounce :=
  let cellKey := cellKey activeSheet row col in
  let cleared :=
    match updateTimeouts d !! cellKey with
    | Some id => delete id (timers d)
    | None => timers d
    end in
  {| updateTimeouts := <[cellKey := nextTimer d]> (updateTimeouts d);
     timers := <[nextTimer d :=
                   (cellKey, {| sheet_name := activeSheet; cu_row := row;
                                cu_col := col; cu_value := value |})]> cleared;
     nextTimer := S (nextTimer d);
     pendingUpdates := {[cellKey]} ∪ pendingUpdates d;
     requests := requests d;
     updateFailed := updateFailed d |}.

(** The timer [id] fires, if it is still set: its callback sends the
    request. *)
Definition timerFires (id : nat) (d : Debounce) : Debounce :=
  match timers d !! id with
  | None => d
  | Some (_, body) =>
      {| updateTimeouts := updateTimeouts d;
         timers := delete id (timers d);
         nextTimer := nextTimer d;
         pendingUpdates := pendingUpdates d;
         requests := requests d ++ [body];
         updateFailed := updateFailed d |}
  end.

(** The answer to a request sent for [cellKey]: a success removes the key
    from [pendingUpdates], a failure only sets the error. *)
Definition responseArrives (cellKey : string) (ok : bool) (d : Debounce)
  : Debounce :=
  {| updateTimeouts := updateTimeouts d;
     timers := timers d;
     nextTimer := nextTimer d;
     pendingUpdates := if ok then pendingUpdates d ∖ {[cellKey]}
                       else pendingUpdates d;
     requests := requests d;
     updateFailed := if ok then updateFailed d else true |}.

Inductive DebounceEvent : Type :=
| CellChanged (activeSheet : string) (row col : Z) (value : string)
| TimerFires (id : nat)
| ResponseArrives (cellKey : string) (ok : bool).

Definition debounce_step (e : DebounceEvent) (d : Debounce) : Debounce :=
  match e with
  | CellChanged activeSheet row col value =>
      scheduleUpdate activeSheet row col value d
  | TimerFires id => timerFires id d
  | ResponseArrives cellKey ok => responseArrives cellKey ok d
  end.

Definition debounce_run (events : list DebounceEvent) (d : Debounce) : Debounce :=
  fold_left (fun d e => debounce_step e d) events d.

(** Every timer that is set is the one recorded for its key, and it sends
    an update of the cell the key names. *)
Definition timers_recorded (d : Debounce) : Prop :=
  forall id key body,
    timers d !! id = Some (key, body) ->
    updateTimeouts d !! key = Some id
    /\ key = cellKey (sheet_name body) (cu_row body) (cu_col body)
    /\ (id < nextTimer d)%nat.

(** No character of [s] is a hyphen. *)
Definition hyphen_free (s : string) : bool :=
  string_forallb (fun a => negb (Ascii.eqb a "-")) s.

(** The number of occurrences of a character. *)
Fixpoint count_char (c : ascii) (s : string) : nat :=
  match s with
  | EmptyString => 0
  | String a rest => (if Ascii.eqb a c then 1 else 0) + count_char c rest
  end.

(** The update [body] is one of the cell [(row, col)] of [activeSheet]. *)
Definition same_cell (activeSheet : string) (row col : Z) (body : CellUpdate)
  : bool :=
  String.eqb (sheet_name body) activeSheet
  && Z.eqb (cu_row body) row && Z.eqb (cu_col body) col.

(** The event is a change of the cell [(row, col)] of [activeSheet]. *)
Definition changes_cell (activeSheet : string) (row col : Z) (e : DebounceEvent)
  : bool :=
  match e with
  | CellChanged activeSheet' row' col' _ =>
      String.eqb activeSheet' activeSheet && Z.eqb row' row && Z.eqb col' col
  | _ => false
  end.

(** The timers recorded in [updateTimeouts.current] were set earlier, and
    no two keys record the same timer. *)
Definition timeouts_fresh (d : Debounce) : Prop :=
  forall key id, updateTimeouts d !! key = Some id -> (id < nextTimer d)%nat.

Definition timeouts_distinct (d : Debounce) : Prop :=
  forall key1 key2 id,
    updateTimeouts d !! key1 = Some id -> updateTimeouts d !! key2 = Some id ->
    key1 = key2.

Definition debounce_coherent (d : Debounce) : Prop :=
  timers_recorded d /\ timeouts_fresh d /\ timeouts_distinct d.

(** Among the timers that send an update of the cell, only [id] is set,
    and it sends [body0]. *)
Definition only_timer_of_cell (activeSheet : string) (row col : Z)
    (id : nat) (body0 : CellUpdate) (d : Debounce) : Prop :=
  forall id' key body,
    timers d !! id' = Some (key, body) ->
    same_cell activeSheet row col body = true ->
    id' = id /\ body = body0.

Definition no_timer_of_cell (activeSheet : string) (row col : Z) (d : Debounce)
  : Prop :=
  forall id key body,
    timers d !! id = Some (key, body) ->
    same_cell activeSheet row col body = false.

(** * Properties *)

(** ** Column labels *)

Section ColumnLabels.
Local Open Scope string_scope.

Lemma getColumnName_loop_step name num :
  getColumnName_loop name num =
  if Z_ge_dec num 0
  then getColumnName_loop
         (String (Js.String_fromCharCode (65 + Z.rem num 26)) name)
         (num / 26 - 1)
  else name.
Proof.
  rewrite getColumnName_loop_equation_1.
  unfold getColumnName_loop_clause_1, Js.Math_floor_div.
  destruct (Z_ge_dec num 0); reflexivity.
Qed.

Lemma label_value_from_app acc s t :
  label_value_from acc (s ++ t) = label_value_from (label_value_from acc s) t.
Proof.
  revert acc; induction s as [|c s IH]; intros acc; simpl; [reflexivity|].
  apply IH.
Qed.

Lemma all_letters_app s t :
  all_letters (s ++ t) = all_letters s && all_letters t.
Proof.
  induction s as [|c s IH]; simpl; [reflexivity|].
  rewrite IH, andb_assoc. reflexivity.
Qed.

Lemma append_snoc_assoc s c t : (s ++ String c "") ++ t = s ++ String c t.
Proof.
  induction s as [|d s IH]; [reflexivity|].
  change (String d ((s ++ String c "") ++ t) = String d (s ++ String c t)).
  f_equal. exact IH.
Qed.

Lemma string_snoc_ind (P : string -> Prop) :
  P "" -> (forall s c, P s -> P (s ++ String c "")) -> forall s, P s.
Proof.
  intros Hnil Hsnoc s.
  rewrite <- (string_of_list_ascii_of_string s).
  generalize (list_ascii_of_string s) as l.
  induction l as [|c l IH] using rev_ind; [exact Hnil|].
  replace (string_of_list_ascii (l ++ [c]))
    with (string_of_list_ascii l ++ String c "").
  - apply Hsnoc, IH.
  - clear. induction l as [|d l IH]; [reflexivity|].
    change (String d (string_of_list_ascii l ++ String c "")
            = String d (string_of_list_ascii (l ++ [c]))).
    f_equal. exact IH.
Qed.

Lemma letter_digit_fromCharCode r :
  0 <= r < 26 -> letter_digit (Js.String_fromCharCode (65 + r)) = r + 1.
Proof.
  intros Hr. unfold letter_digit, Js.String_fromCharCode.
  rewrite N_ascii_embedding by lia. lia.
Qed.

Lemma fromCharCode_letter_digit c :
  Js.String_fromCharCode (65 + (letter_digit c - 1)) = c.
Proof.
  unfold letter_digit, Js.String_fromCharCode.
  replace (65 + (Z.of_N (N_of_ascii c) - 64 - 1)) with (Z.of_N (N_of_ascii c))
    by lia.
  rewrite N2Z.id. apply ascii_N_embedding.
Qed.

(** What the loop computes from any [num >= -1]: it puts in front of
    [name] a string of letters whose value is [num + 1]. *)
Lemma getColumnName_loop_spec num :
  -1 <= num ->
  forall name, exists s,
    getColumnName_loop name num = s ++ name
    /\ all_letters s = true
    /\ label_value s = num + 1
    /\ (0 <= num -> s <> "").
Proof.
  intros Hlo.
  assert (Hnn : 0 <= num + 1) by lia.
  remember (num + 1) as m eqn:Hm.
  revert num Hlo Hm.
  induction m as [m IH] using (well_founded_induction (Z.lt_wf 0)).
  intros num Hlo -> name.
  rewrite getColumnName_loop_step.
  destruct (Z_ge_dec num 0) as [Hge|Hlt].
  - assert (Hq : 0 <= num / 26) by (apply Z.div_pos; lia).
    assert (Hq' : num / 26 <= num) by (apply Z.div_le_upper_bound; lia).
    assert (Hr : 0 <= num mod 26 < 26) by (apply Z.mod_pos_bound; lia).
    destruct (IH (num / 26 - 1 + 1) ltac:(lia) ltac:(lia) (num / 26 - 1)
                 ltac:(lia) eq_refl
                 (String (Js.String_fromCharCode (65 + Z.rem num 26)) name))
      as (s & Hs & Hall & Hval & _).
    exists (s ++ String (Js.String_fromCharCode (65 + Z.rem num 26)) "").
    rewrite Z.rem_mod_nonneg in * by lia.
    repeat split.
    + rewrite Hs, append_snoc_assoc. reflexivity.
    + rewrite all_letters_app, Hall. simpl.
      unfold is_letter. rewrite letter_digit_fromCharCode by lia.
      rewrite andb_true_r. apply andb_true_intro; split; lia.
    + unfold label_value in *. rewrite label_value_from_app, Hval. simpl.
      rewrite letter_digit_fromCharCode by lia.
      pose proof (Z.div_mod num 26 ltac:(lia)). lia.
    + intros _. destruct s; discriminate.
  - exists "". repeat split.
    + unfold label_value; simpl. lia.
    + lia.
Qed.

Lemma label_value_nonneg s : all_letters s = true -> 0 <= label_value s.
Proof.
  unfold label_value.
  induction s as [|s c IH] using string_snoc_ind; simpl; [lia|].
  rewrite all_letters_app, label_value_from_app; simpl.
  unfold is_letter. intros H. 
  apply andb_prop in H as [H1 H2]. rewrite andb_true_r in H2.
  apply andb_prop in H2 as [H2 H3]. specialize (IH H1). lia.
Qed.

(** The loop run on the value of a label writes that label back. *)
Lemma getColumnName_loop_label s :
  all_letters s = true ->
  forall name, getColumnName_loop name (label_value s - 1) = s ++ name.
Proof.
  induction s as [|s c IH] using string_snoc_ind; intros Hall name.
  - rewrite getColumnName_loop_step. reflexivity.
  - rewrite all_letters_app in Hall. apply andb_prop in Hall as [Hs Hc].
    simpl in Hc. rewrite andb_true_r in Hc. unfold is_letter in Hc.
    apply andb_prop in Hc as [Hc1 Hc2].
    pose proof (label_value_nonneg s Hs) as Hv.
    unfold label_value in *. rewrite label_value_from_app. simpl.
    set (v := label_value_from 0 s) in *.
    set (d := letter_digit c) in *.
    rewrite getColumnName_loop_step.
    destruct (Z_ge_dec (26 * v + d - 1) 0) as [_|Hneg]; [|lia].
    rewrite Z.rem_mod_nonneg by lia.
    replace ((26 * v + d - 1) mod 26) with (d - 1).
    2:{ apply (Z.mod_unique_pos _ _ v); lia. }
    replace ((26 * v + d - 1) / 26) with v.
    2:{ apply (Z.div_unique_pos _ _ v (d - 1)); lia. }
    unfold d. rewrite fromCharCode_letter_digit.
    rewrite IH by assumption. rewrite append_snoc_assoc. reflexivity.
Qed.

Lemma parse_decimal_Number_toString n :
  parse_decimal (Js.Number_toString n) = Some n.
Proof.
  unfold parse_decimal, Js.Number_toString.
  rewrite NilZero.isi.
  - simpl. f_equal. apply DecimalZ.of_to.
  - destruct n; simpl; try discriminate.
    intros [= H]. now apply DecimalPos.Unsigned.to_uint_nonnil in H.
  - destruct n; simpl; try discriminate.
    intros [= H]. now apply DecimalPos.Unsigned.to_uint_nonnil in H.
Qed.

(** C1. For every column index [index >= 0], [getColumnName] returns the
    bijective base-26 label of the column: a non-empty string of letters
    [A]..[Z] whose value, read with [A = 1, ..., Z = 26], is [index + 1],
    and the only such string; index 0 gives "A", 25 "Z", 26 "AA", 701 "ZZ"
    and 702 "AAA". [getCellRef] of [(row, index)] is that label followed
    by the decimal numeral of [row + 1]. *)
Theorem getColumnName_bijective_base26 (index row : Z) (Hindex : 0 <= index) :
  (getColumnName index <> ""
   /\ all_letters (getColumnName index) = true
   /\ label_value (getColumnName index) = index + 1
   /\ (forall t, all_letters t = true -> label_value t = index + 1 ->
                 t = getColumnName index))
  /\ (getColumnName 0 = "A" /\ getColumnName 25 = "Z"
      /\ getColumnName 26 = "AA" /\ getColumnName 701 = "ZZ"
      /\ getColumnName 702 = "AAA")
  /\ (getCellRef row index
        = getColumnName index ++ Js.Number_toString (row + 1)
      /\ parse_decimal (Js.Number_toString (row + 1)) = Some (row + 1)).
Proof.
  split; [|split].
  - unfold getColumnName.
    destruct (getColumnName_loop_spec index ltac:(lia) "")
      as (s & Hs & Hall & Hval & Hne).
    assert (Hs' : getColumnName_loop "" index = s).
    { rewrite Hs. clear. induction s as [|c s IH]; [reflexivity|].
      change (String c (s ++ "") = String c s). f_equal. exact IH. }
    rewrite Hs'. repeat split; auto.
    intros t Ht Hv.
    pose proof (getColumnName_loop_label t Ht "") as Hback.
    rewrite Hv in Hback. replace (index + 1 - 1) with index in Hback by lia.
    rewrite Hs' in Hback. rewrite Hback.
    clear. induction t as [|c t IH]; [reflexivity|].
    change (String c t = String c (t ++ "")). f_equal. exact IH.
  - repeat split; vm_compute; reflexivity.
  - split; [reflexivity | apply parse_decimal_Number_toString].
Qed.

Lemma getColumnName_bijective_base26_witness :
  label_value (getColumnName 27) = 28
  /\ getCellRef 11 27 = "AB12".
Proof.
  pose proof (getColumnName_bijective_base26 27 11 ltac:(lia))
    as [(_ & _ & Hv & _) [_ [Hr _]]].
  split; [exact Hv|].
  rewrite Hr. vm_compute. reflexivity.
Defined.

End ColumnLabels.

(** ** Viewport *)

Section Viewport.

Lemma Math_floor_div_add_height (a : Z) :
  Js.Math_floor_div (a + CELL_HEIGHT) CELL_HEIGHT
  = Js.Math_floor_div a CELL_HEIGHT + 1.
Proof.
  unfold Js.Math_floor_div, CELL_HEIGHT.
  replace (a + 25) with (a + 1 * 25) by lia.
  rewrite Z.div_add by lia. reflexivity.
Qed.

Lemma Math_ceil_div_add_height (a : Z) :
  Js.Math_ceil_div (a + CELL_HEIGHT) CELL_HEIGHT
  = Js.Math_ceil_div a CELL_HEIGHT + 1.
Proof.
  unfold Js.Math_ceil_div, CELL_HEIGHT.
  replace (- (a + 25)) with (- a + (-1) * 25) by lia.
  rewrite Z.div_add by lia. lia.
Qed.


(** The column loop never sets [startCol] below 0, and sets [endCol], if
    at all, to a column it visited. *)
Lemma scanColumns_bounds scrollX containerWidth columnWidths n :
  forall col s,
    0 <= col ->
    0 <= ColScan.startCol s ->
    let r := scanColumns scrollX containerWidth columnWidths n col s in
    0 <= ColScan.startCol r
    /\ (ColScan.endCol r = ColScan.endCol s
        \/ col <= ColScan.endCol r < col + Z.of_nat n).
Proof.
  induction n as [|n IH]; intros col s Hcol Hstart; simpl.
  - split; [assumption | left; reflexivity].
  - set (s1 := if negb (ColScan.startFound s)
                  && (ColScan.accumulatedWidth s
                      + colWidthOf columnWidths col >? scrollX)
               then _ else s).
    assert (Hs1 : 0 <= ColScan.startCol s1
                  /\ ColScan.endCol s1 = ColScan.endCol s).
    { subst s1. destruct (_ && _); simpl; split; auto. unfold VISIBLE_BUFFER. lia. }
    destruct Hs1 as [Hs1a Hs1b].
    destruct (ColScan.accumulatedWidth s1 >? _).
    + simpl. split; [assumption | right; lia].
    + match goal with
      | |- context [scanColumns _ _ _ n (col + 1) ?s2] =>
          specialize (IH (col + 1) s2 ltac:(lia) Hs1a)
      end.
      simpl in IH. destruct IH as [IH1 IH2].
      split; [assumption|].
      destruct IH2 as [IH2|IH2]; [left; congruence | right; lia].
Qed.

Lemma totalCols_nonneg (data : Grid) : 0 <= totalCols data.
Proof.
  unfold totalCols. induction data as [|row data IH]; simpl; lia.
Qed.

(** Once the container is measured, the computed range lies inside the
    grid. *)
Lemma visibleRange_measured_bounds el scrollPosition (data : Grid) columnWidths :
  let r := visibleRange (Some el) scrollPosition (totalRows data)
                        (totalCols data) columnWidths in
  0 <= VisibleRange.startRow r
  /\ VisibleRange.endRow r <= totalRows data
  /\ 0 <= VisibleRange.startCol r
  /\ VisibleRange.endCol r <= totalCols data.
Proof.
  simpl.
  pose proof (totalCols_nonneg data) as Hc.
  pose proof (scanColumns_bounds (ScrollPosition.x scrollPosition)
                (clientWidth el - ROW_HEADER_WIDTH) columnWidths
                (Z.to_nat (totalCols data)) 0 (ColScan.mk 0 0 0 false)
                ltac:(lia) ltac:(simpl; lia)) as [Hs He].
  simpl in He.
  repeat split; try lia.
  destruct (ColScan.endCol _ =? 0) eqn:E; [lia|].
  apply Z.eqb_neq in E. lia.
Qed.

(** The cell loop visits exactly the pairs of the range. *)
Lemma elem_of_Array_from {A} (len : Z) (f : Z -> A) (a : A) :
  In a (Js.Array_from len f) <-> exists i, 0 <= i < len /\ a = f i.
Proof.
  unfold Js.Array_from. rewrite in_map_iff. split.
  - intros (i & <- & Hi). apply in_seq in Hi. exists (Z.of_nat i). split; [lia|reflexivity].
  - intros (i & Hi & ->). exists (Z.to_nat i). split.
    + f_equal. lia.
    + apply in_seq. lia.
Qed.

Lemma in_cellLoop {A} (r : VisibleRange.t) (f : Z -> Z -> A) (a : A) :
  In a (cellLoop r f) <->
  exists row col,
    VisibleRange.startRow r <= row < VisibleRange.endRow r
    /\ VisibleRange.startCol r <= col < VisibleRange.endCol r
    /\ a = f row col.
Proof.
  unfold cellLoop. rewrite in_concat. split.
  - intros (l & Hl & Ha). apply elem_of_Array_from in Hl as (i & Hi & ->).
    apply elem_of_Array_from in Ha as (j & Hj & ->).
    eexists _, _. split; [|split; [|reflexivity]]; lia.
  - intros (row & col & Hr & Hc & ->).
    eexists. split.
    + apply elem_of_Array_from. exists (row - VisibleRange.startRow r).
      split; [lia | reflexivity].
    + apply elem_of_Array_from. exists (col - VisibleRange.startCol r).
      split; [lia|]. simpl. f_equal; lia.
Qed.


End Viewport.

(** C5, amended. Scrolling down by one row height moves the row window by
    one row where it is not clamped to the grid: [startRow] grows by
    exactly 1 once [scrollY >= VISIBLE_BUFFER * CELL_HEIGHT], [endRow]
    grows by exactly 1 as long as the new window ends at or before the
    last row; in every case each of them grows by 0 or 1, and the column
    window does not move. *)
Theorem scroll_by_row_height_shifts_unclamped_rows
    (el : Container) (x y totalRows' totalCols' : Z) (widths : gmap Z Z) :
  let before := visibleRange (Some el) (ScrollPosition.mk x y)
                             totalRows' totalCols' widths in
  let after := visibleRange (Some el) (ScrollPosition.mk x (y + CELL_HEIGHT))
                            totalRows' totalCols' widths in
  (VISIBLE_BUFFER * CELL_HEIGHT <= y ->
   VisibleRange.startRow after = VisibleRange.startRow before + 1)
  /\ (Js.Math_ceil_div (y + clientHeight el) CELL_HEIGHT + VISIBLE_BUFFER
      <= totalRows' ->
      VisibleRange.endRow after = VisibleRange.endRow before + 1)
  /\ VisibleRange.startRow before <= VisibleRange.startRow after
     <= VisibleRange.startRow before + 1
  /\ VisibleRange.endRow before <= VisibleRange.endRow after
     <= VisibleRange.endRow before + 1
  /\ VisibleRange.startCol after = VisibleRange.startCol before
  /\ VisibleRange.endCol after = VisibleRange.endCol before.
Proof.
  intros before after. subst before after. simpl.
  rewrite Math_floor_div_add_height.
  replace (y + CELL_HEIGHT + (clientHeight el - CELL_HEIGHT))
    with (y + (clientHeight el - CELL_HEIGHT) + CELL_HEIGHT) by lia.
  rewrite Math_ceil_div_add_height.
  replace (y + clientHeight el)
    with (y + (clientHeight el - CELL_HEIGHT) + CELL_HEIGHT) by lia.
  rewrite Math_ceil_div_add_height.
  assert (Hy : VISIBLE_BUFFER * CELL_HEIGHT <= y ->
               VISIBLE_BUFFER <= Js.Math_floor_div y CELL_HEIGHT).
  { unfold VISIBLE_BUFFER, CELL_HEIGHT, Js.Math_floor_div.
    intros H. apply Z.div_le_lower_bound; lia. }
  unfold VISIBLE_BUFFER in *.
  repeat split; try lia.
Qed.

Lemma scroll_by_row_height_shifts_unclamped_rows_witness :
  let el := {| clientWidth := 860; clientHeight := 625 |} in
  VisibleRange.startRow
    (visibleRange (Some el) (ScrollPosition.mk 0 (125 + CELL_HEIGHT)) 1000 30 ∅)
  = VisibleRange.startRow
      (visibleRange (Some el) (ScrollPosition.mk 0 125) 1000 30 ∅) + 1
  /\ VisibleRange.endRow
       (visibleRange (Some el) (ScrollPosition.mk 0 (125 + CELL_HEIGHT)) 1000 30 ∅)
     = VisibleRange.endRow
         (visibleRange (Some el) (ScrollPosition.mk 0 125) 1000 30 ∅) + 1.
Proof.
  intros el.
  pose proof (scroll_by_row_height_shifts_unclamped_rows el 0 125 1000 30 ∅)
    as (Hs & He & _).
  split.
  - apply Hs. vm_compute. discriminate.
  - apply He. vm_compute. discriminate.
Defined.

(** C5 as stated fails at the top of the sheet: from [scrollY = 0] to
    [scrollY = 25] the first rendered row stays row 0. *)
Lemma scroll_by_row_height_at_top_keeps_startRow :
  let el := {| clientWidth := 860; clientHeight := 625 |} in
  let before := visibleRange (Some el) (ScrollPosition.mk 0 0) 1000 30 ∅ in
  let after :=
    visibleRange (Some el) (ScrollPosition.mk 0 (0 + CELL_HEIGHT)) 1000 30 ∅ in
  ~ (VisibleRange.startRow after = VisibleRange.startRow before + 1
     /\ VisibleRange.endRow after = VisibleRange.endRow before + 1).
Proof.
  intros el before after [H _]. vm_compute in H. discriminate.
Qed.




(** ** Event handlers *)

Ltac unfold_handlers :=
  cbv beta iota zeta delta
    [dispatch handler handleScroll handleMouseDown handleMouseMove
     handleMouseUp handleDoubleClick handleEditChange handleEditKeyDown
     handleColumnResizeStart handleColumnResize handleColumnResizeEnd
     saveEdit call_onCellChange call_onSelectionChange handleCellChange
     setColumnWidths setSelection setIsSelecting setEditingCell setEditValue
     setScrollPosition setResizingColumn setResizeStartX setResizeStartWidth
     new_obj gets modify skip mbind mret M_bind M_ret with_st
     current_saveEdit].

Ltac destruct_world w :=
  let s := fresh "s" in
  destruct w as [? ? ? ? ? s ? ? ? ?]; destruct s.

Ltac step_handlers := unfold_handlers; cbn.

Ltac split_cases := repeat (case_match; simplify_eq/=; try done).

(** *** Writes into the grid *)

Lemma array_get_array_set_same (r : list string) (col : Z) (v : string) :
  0 <= col -> array_get (array_set r col v) col = Some v.
Proof.
  intros Hcol. unfold array_get, array_set.
  destruct (col <? 0) eqn:E; [lia|].
  destruct (col <? Z.of_nat (length r)) eqn:E'.
  - apply list_lookup_insert_eq. lia.
  - rewrite app_assoc. rewrite lookup_app_r.
    + rewrite length_app, length_replicate.
      replace (Z.to_nat col - _)%nat with 0%nat by lia. reflexivity.
    + rewrite length_app, length_replicate. lia.
Qed.

Lemma array_get_array_set_other (r : list string) (col col' : Z) (v : string) :
  col' <> col ->
  default EmptyString (array_get (array_set r col v) col')
  = default EmptyString (array_get r col').
Proof.
  intros Hne. unfold array_get, array_set.
  destruct (col' <? 0) eqn:E'; [reflexivity|].
  destruct (col <? 0) eqn:E; [reflexivity|].
  destruct (col <? Z.of_nat (length r)) eqn:El.
  - rewrite list_lookup_insert_ne by lia. reflexivity.
  - destruct (decide (Z.to_nat col' < length r)%nat) as [Hlt|Hge].
    + rewrite lookup_app_l by assumption. reflexivity.
    + rewrite (lookup_ge_None_2 r) by lia. simpl.
      rewrite lookup_app_r by lia.
      destruct (decide (Z.to_nat col' < Z.to_nat col)%nat) as [Hlt'|Hge'].
      * rewrite lookup_app_l by (rewrite length_replicate; lia).
        rewrite lookup_replicate_2 by lia. reflexivity.
      * rewrite lookup_ge_None_2; [reflexivity|].
        rewrite length_app, length_replicate. simpl. lia.
Qed.

Lemma cellValue_default (data : Grid) (row col : Z) :
  cellValue data row col
  = default EmptyString (array_get (default [] (array_get data row)) col).
Proof.
  unfold cellValue. destruct (array_get data row) as [r|]; simpl.
  - destruct (array_get r col); reflexivity.
  - unfold array_get. destruct (col <? 0); [reflexivity|].
    now rewrite lookup_nil.
Qed.

(** What the in-place write of [handleCellChange] does to the values the
    grid reads. *)
Lemma cellValue_after_write (g : Grid) (r : list string) (row col : Z)
      (v : string) :
  array_get g row = Some r -> 0 <= col ->
  let g' := <[Z.to_nat row := array_set r col v]> g in
  cellValue g' row col = v
  /\ forall row' col', (row', col') <> (row, col) ->
       cellValue g' row' col' = cellValue g row' col'.
Proof.
  intros Hr Hcol g'. unfold array_get in Hr.
  destruct (row <? 0) eqn:Erow; [discriminate|].
  assert (Hlen : (Z.to_nat row < length g)%nat) by (eapply lookup_lt_Some; eauto).
  split.
  - unfold cellValue, array_get at 1. rewrite Erow. subst g'.
    rewrite list_lookup_insert_eq by assumption.
    rewrite array_get_array_set_same by assumption. reflexivity.
  - intros row' col' Hne. rewrite !cellValue_default.
    destruct (decide (row' = row)) as [->|Hrow].
    + assert (col' <> col) by congruence.
      unfold array_get at 2 4. rewrite Erow. subst g'.
      rewrite list_lookup_insert_eq by assumption. rewrite Hr. simpl.
      apply array_get_array_set_other. assumption.
    + unfold array_get at 2 4. destruct (row' <? 0) eqn:E'; [reflexivity|].
      subst g'. rewrite list_lookup_insert_ne by lia. reflexivity.
Qed.

Ltac unfold_hooks :=
  cbv beta iota zeta delta
    [rerender mouseDownDeps current_handleMouseDown current_saveEdit
     option_nat_same hooks_coherent mount initialState] in *;
  cbn in *.

Lemma mount_hooks_coherent sheet cb1 cb2 el :
  hooks_coherent (mount sheet cb1 cb2 el).
Proof. unfold_hooks. repeat split; auto. discriminate. Qed.

Ltac destruct_memo_handleMouseDown :=
  match goal with
  | m : Memo (option nat) MouseDownClosure |- _ =>
      let c := fresh "closure" in
      let se := fresh "captured" in
      destruct m as [? c]; destruct c as [? se]; destruct se
  end.

Ltac nat_eqb_hyps :=
  repeat match goal with
         | H : (_ =? _)%nat = true |- _ => apply Nat.eqb_eq in H
         | H : (_ =? _)%nat = false |- _ => apply Nat.eqb_neq in H
         end.

(** [useCallback] keeps [handleMouseDown] in step with [editingCell]: the
    closure is replaced exactly when the identity of [editingCell]
    changes. *)
Lemma dispatch_hooks_coherent e w w' :
  hooks_coherent w -> dispatch e w = Some w' -> hooks_coherent w'.
Proof.
  intros Hcoh Hstep.
  destruct_world w. destruct_memo_handleMouseDown.
  destruct Hcoh as (Hdeps & Hmd & Hse & Hheap). cbn in Hdeps, Hmd, Hse, Hheap.
  unfold mouseDownDeps in Hdeps. cbn in Hdeps. subst.
  destruct e; revert Hstep; step_handlers; intros Hstep.
  all: unfold_hooks.
  all: split_cases.
  all: nat_eqb_hyps.
  all: repeat split; intros; simplify_eq/=; eauto; try lia.
  all: try (specialize (Hheap _ eq_refl); simpl in Hheap; lia).
  all: match goal with
       | c : option (Obj CellPos.t) |- _ => destruct c; simplify_eq/=; try done
       end.
  all: specialize (Hheap _ eq_refl); simpl in Hheap; lia.
Qed.

Lemma run_hooks_coherent events : forall w w',
  hooks_coherent w -> run events w = Some w' -> hooks_coherent w'.
Proof.
  induction events as [|e events IH]; intros w w' Hcoh Hrun; simpl in Hrun.
  - injection Hrun as <-. exact Hcoh.
  - destruct (dispatch e w) as [w1|] eqn:E; [|discriminate].
    eauto using dispatch_hooks_coherent.
Qed.

Lemma array_get_in_range {A} (l : list A) (i : Z) :
  0 <= i < Z.of_nat (length l) -> exists a, array_get l i = Some a.
Proof.
  intros Hi. unfold array_get. destruct (i <? 0) eqn:E; [lia|].
  apply lookup_lt_is_Some_2. lia.
Qed.

(** ** Edit sessions *)



(** C7. In every world, Escape in the editor discards the draft, writes
    nothing into the grid, calls no callback, and leaves no edit session
    open. *)
Theorem cancel_discards_draft (w : World) :
  exists w',
    dispatch (EditKeyDown "Escape") w = Some w'
    /\ sheet w' = sheet w
    /\ (forall row col, cellValue (data w') row col = cellValue (data w) row col)
    /\ cellChanges w' = cellChanges w
    /\ selectionChanges w' = selectionChanges w
    /\ editingCell (st w') = None
    /\ editValue (st w') = EmptyString.
Proof.
  destruct_world w. step_handlers.
  eexists; split; [reflexivity|]. cbn. repeat split.
Qed.

(** The cancel scenario of the specification: "10" at (1,1), an edit opened
    there, the draft "20", Escape. *)
Example cancel_leaves_cell_and_calls_nothing :
  let w0 := mount (Some [["a"; "b"]; ["c"; "10"]]%string) true true
                  {| clientWidth := 860; clientHeight := 625 |} in
  option_map (fun w => (cellValue (data w) 1 1, cellChanges w,
                        option_map val (editingCell (st w))))
             (run [DoubleClick 1 1; EditChange "20"; EditKeyDown "Escape"] w0)
  = Some ("10"%string, [], None).
Proof. vm_compute. reflexivity. Qed.

(** ** Column widths *)

Lemma colWidthOf_above_floor (columnWidths : gmap Z Z) (col : Z) :
  widths_above_floor columnWidths ->
  MIN_CELL_WIDTH <= colWidthOf columnWidths col.
Proof.
  intros Hinv. unfold colWidthOf.
  destruct (columnWidths !! col) as [width|] eqn:E.
  - destruct (width =? 0); [unfold MIN_CELL_WIDTH, DEFAULT_CELL_WIDTH; lia|].
    eapply Hinv; eauto.
  - unfold MIN_CELL_WIDTH, DEFAULT_CELL_WIDTH; lia.
Qed.

Lemma widths_above_floor_insert (columnWidths : gmap Z Z) (col width : Z) :
  widths_above_floor columnWidths -> MIN_CELL_WIDTH <= width ->
  widths_above_floor (<[col := width]> columnWidths).
Proof.
  intros Hinv Hw col' width' Hlook.
  destruct (decide (col = col')) as [->|Hne].
  - rewrite lookup_insert_eq in Hlook. congruence.
  - rewrite lookup_insert_ne in Hlook by assumption. eapply Hinv; eauto.
Qed.

(** No handler but [handleColumnResize] writes [columnWidths], and it writes
    a clamped width. *)
Lemma dispatch_widths_above_floor e w w' :
  widths_above_floor (val (columnWidths (st w))) ->
  dispatch e w = Some w' ->
  widths_above_floor (val (columnWidths (st w'))).
Proof.
  intros Hinv Hstep.
  destruct_world w. cbn in Hinv.
  destruct e; revert Hstep; step_handlers; intros Hstep.
  all: split_cases; simplify_eq/=; try assumption.
  apply widths_above_floor_insert; [assumption | lia].
Qed.

Lemma run_widths_above_floor events : forall w w',
  widths_above_floor (val (columnWidths (st w))) ->
  run events w = Some w' ->
  widths_above_floor (val (columnWidths (st w'))).
Proof.
  induction events as [|e events IH]; intros w w' Hinv Hrun; simpl in Hrun.
  - injection Hrun as <-. exact Hinv.
  - destruct (dispatch e w) as [w1|] eqn:E; [|discriminate].
    eauto using dispatch_widths_above_floor.
Qed.

(** C8. While a column [c] is being resized, a pointer move to [clientX]
    stores for [c] the width
    [max (MIN_CELL_WIDTH, resizeStartWidth + (clientX - resizeStartX))],
    whatever the displacement; and in every world reached from the mounted
    component by any sequence of events, every stored width and every width
    reported by [columnWidths[col] || DEFAULT_CELL_WIDTH] is at least
    [MIN_CELL_WIDTH]. *)
Theorem resize_clamps_to_minimum_width :
  (forall (w : World) (c clientX : Z),
      resizingColumn (st w) = Some c ->
      exists w',
        dispatch (DocumentMouseMove clientX) w = Some w'
        /\ val (columnWidths (st w'))
           = <[c := Z.max MIN_CELL_WIDTH
                      (resizeStartWidth (st w) + (clientX - resizeStartX (st w)))]>
               (val (columnWidths (st w)))
        /\ MIN_CELL_WIDTH <= colWidthOf (val (columnWidths (st w'))) c)
  /\ (forall sheet cb1 cb2 el events w,
        run events (mount sheet cb1 cb2 el) = Some w ->
        widths_above_floor (val (columnWidths (st w)))
        /\ forall col, MIN_CELL_WIDTH <= colWidthOf (val (columnWidths (st w))) col).
Proof.
  split.
  - intros w c clientX Hres. destruct_world w. cbn in Hres. subst.
    step_handlers. eexists; split; [reflexivity|]. cbn. split; [reflexivity|].
    unfold colWidthOf. rewrite lookup_insert_eq.
    destruct (_ =? 0); unfold MIN_CELL_WIDTH, DEFAULT_CELL_WIDTH; lia.
  - intros sheet cb1 cb2 el events w Hrun.
    assert (Hinv : widths_above_floor (val (columnWidths (st w)))).
    { eapply run_widths_above_floor; [|exact Hrun].
      intros col width Hlook. cbn in Hlook. rewrite lookup_empty in Hlook.
      discriminate. }
    split; [exact Hinv|]. intros col. now apply colWidthOf_above_floor.
Qed.

(** The resize scenario of the specification: column 3 dragged far to the
    left ends at the floor. *)
Lemma resize_clamps_to_minimum_width_witness :
  let w0 := mount (Some [["a"; "b"]; ["c"; "10"]]%string) true true
                  {| clientWidth := 860; clientHeight := 625 |} in
  exists w,
    run [ColumnResizeStart 3 400; DocumentMouseMove 250; DocumentMouseUp] w0
    = Some w
    /\ val (columnWidths (st w)) !! 3 = Some MIN_CELL_WIDTH
    /\ MIN_CELL_WIDTH <= colWidthOf (val (columnWidths (st w))) 3.
Proof.
  intros w0.
  destruct (run [ColumnResizeStart 3 400; DocumentMouseMove 250; DocumentMouseUp] w0)
    as [w|] eqn:Hrun; [|vm_compute in Hrun; discriminate].
  exists w. split; [reflexivity|].
  pose proof (proj2 resize_clamps_to_minimum_width _ _ _ _ _ _ Hrun) as [_ Hcol].
  split; [|apply Hcol].
  assert (Hw : Some w = run [ColumnResizeStart 3 400; DocumentMouseMove 250;
                             DocumentMouseUp] w0) by (symmetry; exact Hrun).
  vm_compute in Hw. injection Hw as ->. vm_compute. reflexivity.
Defined.

(** ** Selection *)

Lemma isCellSelected_in_rectangle (a b : CellPos.t) (row col : Z) :
  isCellSelected (Some (CellSelection.mk a b)) row col = true
  <-> in_rectangle a b row col.
Proof.
  unfold isCellSelected, in_rectangle. cbn.
  rewrite !andb_true_iff, !Z.geb_le, !Z.leb_le. lia.
Qed.

Lemma isCellSelected_swap (a b : CellPos.t) (row col : Z) :
  isCellSelected (Some (CellSelection.mk a b)) row col
  = isCellSelected (Some (CellSelection.mk b a)) row col.
Proof.
  unfold isCellSelected. cbn.
  rewrite (Z.min_comm (CellPos.row a)), (Z.max_comm (CellPos.row a)),
    (Z.min_comm (CellPos.col a)), (Z.max_comm (CellPos.col a)).
  reflexivity.
Qed.

(** A press followed by a move, when the press returns, leaves the
    selection anchored at the pressed cell and ending at the cell moved
    to; whether the press returns does not depend on the cell pressed. *)
Lemma drag_selection (w : World) (a b : CellPos.t) :
  match run [MouseDown (CellPos.row a) (CellPos.col a);
             MouseMove (CellPos.row b) (CellPos.col b)] w with
  | Some w' => selection (st w') = Some (CellSelection.mk a b)
               /\ dispatch (MouseDown 0 0) w <> None
  | None => dispatch (MouseDown 0 0) w = None
  end.
Proof.
  destruct a as [ra ca], b as [rb cb].
  destruct_world w. unfold run. step_handlers.
  split_cases.
Qed.

(** C9. From every world, for all cells [a] and [b] and every queried cell,
    the membership answer after a press on [a] and a move to [b] is the
    answer after a press on [b] and a move to [a]. *)
Theorem selection_membership_symmetric
    (w : World) (a b : CellPos.t) (row col : Z) :
  contains_after_drag w a b row col = contains_after_drag w b a row col.
Proof.
  unfold contains_after_drag.
  pose proof (drag_selection w a b) as Hab.
  pose proof (drag_selection w b a) as Hba.
  destruct (run [MouseDown (CellPos.row a) _; _] w) as [w1|];
    destruct (run [MouseDown (CellPos.row b) _; _] w) as [w2|].
  - destruct Hab as [-> _], Hba as [-> _]. f_equal. apply isCellSelected_swap.
  - destruct Hab as [_ Hab]. contradiction.
  - destruct Hba as [_ Hba]. contradiction.
  - reflexivity.
Qed.

(** The two drags of the specification, between (2,2) and (0,0), on a
    freshly mounted grid: both select the 3 x 3 block and nothing else. *)
Example selection_symmetric_2_2_0_0 :
  let w0 := mount (Some (repeat (repeat EmptyString 4) 4)) true true
                  {| clientWidth := 860; clientHeight := 625 |} in
  List.map (fun '(row, col) =>
              (contains_after_drag w0 (CellPos.mk 2 2) (CellPos.mk 0 0) row col,
               contains_after_drag w0 (CellPos.mk 0 0) (CellPos.mk 2 2) row col))
           [(0, 0); (1, 1); (2, 2); (0, 2); (2, 0); (3, 1); (1, 3)]
  = [(Some true, Some true); (Some true, Some true); (Some true, Some true);
     (Some true, Some true); (Some true, Some true);
     (Some false, Some false); (Some false, Some false)].
Proof. vm_compute. reflexivity. Qed.

(** With no edit session open the press always returns, and the answer is
    membership in the rectangle spanned by the two cells. *)
Lemma contains_after_drag_in_rectangle (w : World) (a b : CellPos.t)
      (row col : Z) :
  hooks_coherent w -> editingCell (st w) = None ->
  exists answer,
    contains_after_drag w a b row col = Some answer
    /\ (answer = true <-> in_rectangle a b row col).
Proof.
  intros (_ & Hmd & _) Hidle. rewrite Hidle in Hmd.
  unfold contains_after_drag.
  pose proof (drag_selection w a b) as Hab.
  destruct (run _ w) as [w1|].
  - destruct Hab as [-> _]. eexists; split; [reflexivity|].
    apply isCellSelected_in_rectangle.
  - exfalso. revert Hab. destruct_world w. cbn in Hmd.
    step_handlers. rewrite Hmd. split_cases.
Qed.

(** ** Pointer events and the edit session *)

(** A press on a cell closes the edit session: under [hooks_coherent] the
    memoized [handleMouseDown] sees the current [editingCell]. *)
Lemma dispatch_drag_excludes_edit e w w' down :
  hooks_coherent w ->
  drag_excludes_edit down w ->
  (match e with DoubleClick _ _ => negb down | _ => true end) = true ->
  dispatch e w = Some w' ->
  drag_excludes_edit (button_after down e) w'.
Proof.
  intros Hcoh [Hsel Hedit] Hord Hstep.
  destruct_world w. destruct_memo_handleMouseDown.
  destruct Hcoh as (_ & Hmd & Hse & _). cbn in Hmd, Hse, Hsel, Hedit. subst.
  unfold drag_excludes_edit.
  destruct e; revert Hstep; step_handlers; intros Hstep.
  all: split_cases; simplify_eq/=.
  all: try (split; intros; simplify_eq/=; auto; fail).
  all: try (destruct down; simplify_eq/=; split; intros; simplify_eq/=; auto;
            try (apply Hedit; discriminate); fail).
Qed.

Lemma run_drag_excludes_edit events : forall w w' down,
  hooks_coherent w ->
  drag_excludes_edit down w ->
  double_click_after_release down events = true ->
  run events w = Some w' ->
  drag_excludes_edit (button_after_all down events) w'.
Proof.
  induction events as [|e events IH]; intros w w' down Hcoh Hinv Hord Hrun;
    simpl in Hrun, Hord.
  - injection Hrun as <-. exact Hinv.
  - destruct (dispatch e w) as [w1|] eqn:E; [|discriminate].
    apply andb_prop in Hord as [Hhere Hrest].
    simpl. apply (IH w1 w' (button_after down e)).
    + eapply dispatch_hooks_coherent; eauto.
    + eapply dispatch_drag_excludes_edit; eauto.
    + exact Hrest.
    + exact Hrun.
Qed.

(** C3, amended. In every world reached from the mounted component by
    events in which a double click is delivered after the button was
    released, and in which an edit session is open: a pointer move over any
    cell leaves the selection as it is and reports nothing; a pointer press
    on any cell does change the selection, if it returns it has made it
    the single cell pressed and has closed the edit session, and it fails
    to return only when the commit of the session raises in the
    collaborator. *)
Theorem pointer_move_while_editing_keeps_selection
    (sheet0 : option Grid) (cb1 cb2 : bool) (el : Container)
    (events : list Event) (w : World) (row col : Z) :
  run events (mount sheet0 cb1 cb2 el) = Some w ->
  double_click_after_release false events = true ->
  editingCell (st w) <> None ->
  (exists w',
      dispatch (MouseMove row col) w = Some w'
      /\ selection (st w') = selection (st w)
      /\ selectionChanges w' = selectionChanges w)
  /\ match dispatch (MouseDown row col) w with
     | Some w' =>
         selection (st w') = Some (single_cell row col)
         /\ editingCell (st w') = None
     | None =>
         exists cell g,
           editingCell (st w) = Some cell
           /\ onCellChange w = true
           /\ sheet w = Some g
           /\ array_get g (CellPos.row (val cell)) = None
     end.
Proof.
  intros Hrun Hord Hediting.
  assert (Hcoh : hooks_coherent w).
  { eapply run_hooks_coherent; [|exact Hrun]. apply mount_hooks_coherent. }
  assert (Hinv : drag_excludes_edit (button_after_all false events) w).
  { eapply run_drag_excludes_edit; [| |exact Hord|exact Hrun].
    - apply mount_hooks_coherent.
    - split; cbn; [discriminate | congruence]. }
  destruct Hinv as [Hsel Hedit]. specialize (Hedit Hediting).
  assert (Hnodrag : isSelecting (st w) = false).
  { destruct (isSelecting (st w)); [|reflexivity].
    specialize (Hsel eq_refl). congruence. }
  clear Hrun Hord Hsel Hedit.
  destruct_world w. destruct_memo_handleMouseDown.
  destruct Hcoh as (_ & Hmd & Hse & _).
  cbn in Hmd, Hse, Hnodrag, Hediting. subst.
  split.
  - step_handlers. eexists; split; [reflexivity|]. cbn. split; reflexivity.
  - step_handlers. split_cases; eauto 10.
Qed.

Lemma pointer_move_while_editing_keeps_selection_witness :
  let w0 := mount (Some [["a"; "b"]; ["c"; "10"]]%string) true true
                  {| clientWidth := 860; clientHeight := 625 |} in
  let events := [MouseDown 0 0; MouseUp; MouseDown 0 0; MouseUp;
                 DoubleClick 0 0] in
  exists w w',
    run events w0 = Some w
    /\ dispatch (MouseMove 1 1) w = Some w'
    /\ selection (st w') = selection (st w).
Proof.
  intros w0 events.
  destruct (run events w0) as [w|] eqn:Hrun; [|vm_compute in Hrun; discriminate].
  assert (Hw : Some w = run events w0) by (symmetry; exact Hrun).
  vm_compute in Hw. injection Hw as Hw.
  destruct (pointer_move_while_editing_keeps_selection _ _ _ _ events w 1 1 Hrun)
    as [(w' & Hstep & Hsame & _) _].
  - reflexivity.
  - rewrite Hw. discriminate.
  - exists w, w'. auto.
Defined.

(** C3 as stated fails for a pointer press: after a click and a double
    click on (0,0) the cell is being edited and is the selection; a press
    on (1,1) makes (1,1) the selection. *)
Lemma pointer_down_while_editing_changes_selection :
  let w0 := mount (Some [["a"; "b"]; ["c"; "10"]]%string) true true
                  {| clientWidth := 860; clientHeight := 625 |} in
  exists w w',
    run [MouseDown 0 0; MouseUp; MouseDown 0 0; MouseUp; DoubleClick 0 0] w0
    = Some w
    /\ option_map val (editingCell (st w)) = Some (CellPos.mk 0 0)
    /\ dispatch (MouseDown 1 1) w = Some w'
    /\ selection (st w) = Some (single_cell 0 0)
    /\ selection (st w') = Some (single_cell 1 1)
    /\ selection (st w') <> selection (st w).
Proof.
  intros w0.
  eexists. eexists.
  split; [vm_compute; reflexivity|].
  split; [reflexivity|].
  split; [vm_compute; reflexivity|].
  split; [reflexivity|]. split; [reflexivity|]. discriminate.
Qed.

(** The order of delivery matters for the pointer move: were a double
    click handled while the button is still held, the drag would go on
    during the edit session and a move would extend the selection. *)
Example pointer_move_extends_if_double_click_during_press :
  let w0 := mount (Some [["a"; "b"]; ["c"; "10"]]%string) true true
                  {| clientWidth := 860; clientHeight := 625 |} in
  double_click_after_release false [MouseDown 0 0; DoubleClick 0 0] = false
  /\ option_map (fun w => (option_map val (editingCell (st w)), selection (st w)))
                (run [MouseDown 0 0; DoubleClick 0 0; MouseMove 1 1] w0)
     = Some (Some (CellPos.mk 0 0),
             Some (CellSelection.mk (CellPos.mk 0 0) (CellPos.mk 1 1))).
Proof. split; vm_compute; reflexivity. Qed.

(** What a press does to an open edit session: it commits the draft that
    the memoized [handleMouseDown] captured, not the draft of the current
    render. *)
Lemma pointer_down_commits_captured_draft
    (w : World) (cell : Obj CellPos.t) (row col : Z) :
  hooks_coherent w ->
  editingCell (st w) = Some cell ->
  onCellChange w = true ->
  0 <= CellPos.row (val cell) < totalRows (data w) ->
  0 <= CellPos.col (val cell) ->
  let captured := se_editValue (md_saveEdit (value (memo_handleMouseDown w))) in
  exists w',
    dispatch (MouseDown row col) w = Some w'
    /\ cellValue (data w') (CellPos.row (val cell)) (CellPos.col (val cell))
       = captured
    /\ (forall r c,
          (r, c) <> (CellPos.row (val cell), CellPos.col (val cell)) ->
          cellValue (data w') r c = cellValue (data w) r c)
    /\ cellChanges w'
       = cellChanges w
         ++ [(CellPos.row (val cell), CellPos.col (val cell), captured)]
    /\ selection (st w') = Some (single_cell row col)
    /\ editingCell (st w') = None.
Proof.
  intros Hcoh Hcell Hcb Hrow Hcol captured. subst captured.
  destruct_world w. destruct_memo_handleMouseDown.
  destruct Hcoh as (_ & Hmd & Hse & _).
  cbn in Hmd, Hse, Hcell, Hcb, Hrow. subst.
  destruct sheet0 as [g|]; cbn in Hrow;
    [|unfold totalRows in Hrow; simpl in Hrow; lia].
  destruct (array_get_in_range g _ Hrow) as [r Hr].
  pose proof (cellValue_after_write g r _ _ se_editValue0 Hr Hcol) as [Hsame Hother].
  step_handlers. rewrite Hr. cbn.
  destruct onSelectionChange0; cbn; (eexists; split; [reflexivity|]);
    unfold data; cbn; auto.
Qed.

(** Typing in the editor does not replace the memoized [handleMouseDown]:
    [editingCell] keeps its identity. *)
Lemma dispatch_EditChange_keeps_handleMouseDown (w : World) (v : string) :
  hooks_coherent w ->
  exists w',
    dispatch (EditChange v) w = Some w'
    /\ memo_handleMouseDown w' = memo_handleMouseDown w
    /\ editingCell (st w') = editingCell (st w)
    /\ editValue (st w') = v
    /\ sheet w' = sheet w /\ cellChanges w' = cellChanges w
    /\ onCellChange w' = onCellChange w.
Proof.
  intros (Hdeps & _). destruct_world w. destruct_memo_handleMouseDown.
  unfold mouseDownDeps in Hdeps. cbn in Hdeps. subst.
  step_handlers. eexists; split; [reflexivity|].
  unfold rerender, mouseDownDeps, option_nat_same. cbn.
  destruct editingCell0 as [cell|]; cbn; rewrite ?Nat.eqb_refl;
    repeat split.
Qed.

(** C10, at the input where it fails. "10" is at (1,1); a double click opens
    the edit session there, "20" is typed, and (0,0) is pressed. The
    selection becomes the single cell (0,0) and the session is closed, but
    the value committed is the "10" the session was opened with: the
    callback receives (1, 1, "10") and the grid keeps "10", while Enter in
    the same state commits "20". *)
Theorem pointer_down_commits_stale_draft :
  let w0 := mount (Some [["a"; "b"]; ["c"; "10"]]%string) true true
                  {| clientWidth := 860; clientHeight := 625 |} in
  exists w w' w'',
    run [DoubleClick 1 1; EditChange "20"] w0 = Some w
    /\ option_map val (editingCell (st w)) = Some (CellPos.mk 1 1)
    /\ editValue (st w) = "20"%string
    /\ dispatch (MouseDown 0 0) w = Some w'
    /\ cellChanges w' = [(1, 1, "10"%string)]
    /\ cellValue (data w') 1 1 = "10"%string
    /\ selection (st w') = Some (single_cell 0 0)
    /\ editingCell (st w') = None
    /\ dispatch (EditKeyDown "Enter") w = Some w''
    /\ cellChanges w'' = [(1, 1, "20"%string)]
    /\ cellValue (data w'') 1 1 = "20"%string.
Proof.
  intros w0. eexists. eexists. eexists.
  split; [vm_compute; reflexivity|].
  split; [reflexivity|]. split; [reflexivity|].
  split; [vm_compute; reflexivity|].
  split; [reflexivity|]. split; [reflexivity|].
  split; [reflexivity|]. split; [reflexivity|].
  split; [vm_compute; reflexivity|].
  split; reflexivity.
Qed.

(** ** Rendering *)

(** C2, at the input where it fails. A 1 x 1 grid is mounted. Its first
    render draws the fixed range of 50 rows and 20 columns, 1000 cells,
    among them the cell (49, 19), labelled "T50", which is no cell of the
    grid; the range is memoized, so it is still drawn after a click, until
    a dependency changes: a scroll event replaces it by the one cell of the
    grid. An edit committed in one of the cells outside the grid raises in
    the collaborator. *)
Theorem first_render_draws_cells_outside_grid :
  let w0 := mount (Some [["x"]]%string) true true
                  {| clientWidth := 860; clientHeight := 625 |} in
  totalRows (data w0) = 1 /\ totalCols (data w0) = 1
  /\ length (render w0) = 1000%nat
  /\ (exists d, In d (render w0)
                /\ cd_row d = 49 /\ cd_col d = 19
                /\ cd_cellRef d = "T50"%string
                /\ cd_value d = EmptyString)
  /\ option_map (fun w => length (render w)) (run [MouseDown 0 0; MouseUp] w0)
     = Some 1000%nat
  /\ option_map (fun w => List.map (fun d => (cd_row d, cd_col d)) (render w))
                (run [Scroll 0 0] w0)
     = Some [(0, 0)]
  /\ run [DoubleClick 5 0; EditChange "z"; EditKeyDown "Enter"] w0 = None.
Proof.
  intros w0.
  split; [reflexivity|]. split; [reflexivity|].
  split; [vm_compute; reflexivity|].
  split.
  - exists (renderCell w0 49 19). split.
    + apply in_cellLoop. exists 49, 19. cbn. repeat split; lia.
    + repeat split; vm_compute; reflexivity.
  - split; [vm_compute; reflexivity|].
    split; vm_compute; reflexivity.
Qed.

(** Once the range has been computed with the container in place, every
    cell drawn is a cell of the grid: the computed branch clamps where the
    fixed range does not. *)
Lemma render_measured_within_grid (w : World) (el : Container)
      (d : CellDescriptor) :
  value (memo_visibleRange w)
  = visibleRange (Some el) (val (scrollPosition (st w)))
                 (totalRows (data w)) (totalCols (data w))
                 (val (columnWidths (st w))) ->
  In d (render w) ->
  0 <= cd_row d < totalRows (data w) /\ 0 <= cd_col d < totalCols (data w).
Proof.
  intros Hmemo Hin. unfold render in Hin. rewrite Hmemo in Hin.
  apply in_cellLoop in Hin as (row & col & Hr & Hc & ->). cbn.
  pose proof (visibleRange_measured_bounds el (val (scrollPosition (st w)))
                (data w) (val (columnWidths (st w)))) as (H1 & H2 & H3 & H4).
  cbv zeta in H1, H2, H3, H4. lia.
Qed.

Lemma mount_range_memo_coherent sheet0 cb1 cb2 el :
  range_memo_coherent (mount sheet0 cb1 cb2 el).
Proof.
  unfold range_memo_coherent, mount, rangeDeps, data. cbn.
  repeat split; try lia. exists None. reflexivity.
Qed.

Lemma rangeDeps_same_eq (a b : RangeDeps) :
  rangeDeps_same a b = true -> a = b.
Proof.
  destruct a, b. unfold rangeDeps_same. cbn.
  rewrite !andb_true_iff, !Nat.eqb_eq, !Z.eqb_eq.
  intros [[[-> ->] ->] ->]. reflexivity.
Qed.

(** [useMemo] keeps the range in step with its dependencies: a new scroll
    position or a new width table is a new object, and a kept range was
    computed from the same objects and the same grid size. *)
Lemma dispatch_range_memo_coherent e w w' :
  range_memo_coherent w -> dispatch e w = Some w' -> range_memo_coherent w'.
Proof.
  intros (Hdeps & (current & Hval) & Hsp & Hcw) Hstep.
  unfold dispatch in Hstep.
  destruct (handler e w) as [[[] w1]|] eqn:Hh; [|discriminate].
  injection Hstep as <-.
  assert (Hkeep :
    memo_visibleRange w1 = memo_visibleRange w
    /\ (oid (scrollPosition (st w1)) < heap w1)%nat
    /\ (oid (columnWidths (st w1)) < heap w1)%nat
    /\ (oid (scrollPosition (st w1)) = oid (scrollPosition (st w)) ->
        scrollPosition (st w1) = scrollPosition (st w))
    /\ (oid (columnWidths (st w1)) = oid (columnWidths (st w)) ->
        columnWidths (st w1) = columnWidths (st w))).
  { clear Hdeps Hval current. revert Hh. destruct_world w. cbn in Hsp, Hcw.
    destruct e; step_handlers; intros Hh.
    all: split_cases; simplify_eq/=.
    all: repeat split; auto; try lia. }
  destruct Hkeep as (Hmemo & Hsp1 & Hcw1 & Hspid & Hcwid).
  unfold range_memo_coherent, rerender. cbn.
  destruct (rangeDeps_same (deps (memo_visibleRange w1)) (rangeDeps w1)) eqn:Hsame.
  - apply rangeDeps_same_eq in Hsame.
    split; [exact Hsame|]. split; [|split; assumption].
    rewrite Hmemo in Hsame |- *. rewrite Hdeps in Hsame.
    unfold rangeDeps in Hsame. injection Hsame as Hi Hr Hc Hj.
    exists current. rewrite Hval.
    rewrite (Hspid (eq_sym Hi)), (Hcwid (eq_sym Hj)).
    unfold rangeDeps. cbn. rewrite Hr, Hc. reflexivity.
  - cbn. split; [reflexivity|]. split; [|split; assumption].
    exists (scrollContainerRef w1). reflexivity.
Qed.

Lemma run_range_memo_coherent events : forall w w',
  range_memo_coherent w -> run events w = Some w' -> range_memo_coherent w'.
Proof.
  induction events as [|e events IH]; intros w w' Hcoh Hrun; simpl in Hrun.
  - injection Hrun as <-. exact Hcoh.
  - destruct (dispatch e w) as [w1|] eqn:E; [|discriminate].
    eauto using dispatch_range_memo_coherent.
Qed.

(** In every world reached from the mounted component, each cell drawn is
    a cell of the memoized range, and it is a cell of the grid unless the
    range is still the fixed one of the first render. *)
Lemma render_within_grid_unless_fixed_range
    (sheet0 : option Grid) (cb1 cb2 : bool) (el : Container)
    (events : list Event) (w : World) (d : CellDescriptor) :
  run events (mount sheet0 cb1 cb2 el) = Some w ->
  In d (render w) ->
  let r := value (memo_visibleRange w) in
  (VisibleRange.startRow r <= cd_row d < VisibleRange.endRow r
   /\ VisibleRange.startCol r <= cd_col d < VisibleRange.endCol r)
  /\ ((0 <= cd_row d < totalRows (data w) /\ 0 <= cd_col d < totalCols (data w))
      \/ r = VisibleRange.mk 0 50 0 20).
Proof.
  intros Hrun Hin r.
  assert (Hcoh : range_memo_coherent w).
  { eapply run_range_memo_coherent; [|exact Hrun].
    apply mount_range_memo_coherent. }
  destruct Hcoh as (_ & (current & Hval) & _).
  split.
  - unfold render in Hin. apply in_cellLoop in Hin as (row & col & Hr & Hc & ->).
    cbn. subst r. lia.
  - destruct current as [el'|].
    + left. eapply render_measured_within_grid; eauto.
    + right. subst r. rewrite Hval. reflexivity.
Qed.

(** A double click opens the edit session with the value of the cell, and
    the [handleMouseDown] of that render captures it. *)
Lemma dispatch_DoubleClick_captures_cell (w : World) (row col : Z) :
  hooks_coherent w ->
  exists w' cell,
    dispatch (DoubleClick row col) w = Some w'
    /\ editingCell (st w') = Some cell
    /\ val cell = CellPos.mk row col
    /\ editValue (st w') = cellValue (data w) row col
    /\ se_editValue (md_saveEdit (value (memo_handleMouseDown w')))
       = cellValue (data w) row col
    /\ sheet w' = sheet w /\ cellChanges w' = cellChanges w
    /\ onCellChange w' = onCellChange w.
Proof.
  intros (Hdeps & _ & _ & Hheap).
  destruct_world w. destruct_memo_handleMouseDown.
  unfold mouseDownDeps in Hdeps. cbn in Hdeps, Hheap. subst.
  step_handlers. eexists. eexists. split; [reflexivity|].
  unfold rerender, mouseDownDeps, option_nat_same, current_handleMouseDown,
    current_saveEdit, data. cbn.
  destruct editingCell0 as [old|]; cbn.
  - specialize (Hheap old eq_refl).
    destruct (oid old =? heap0)%nat eqn:E; [apply Nat.eqb_eq in E; lia|].
    cbn. repeat split.
  - repeat split.
Qed.

Lemma last_cons_default {A} (l : list A) : forall a d d',
  List.last (a :: l) d = List.last (a :: l) d'.
Proof.
  induction l as [|b l IH]; intros a d d'; [reflexivity|].
  change (List.last (b :: l) d = List.last (b :: l) d'). apply IH.
Qed.

Lemma run_EditChange_keeps_handleMouseDown (drafts : list string) :
  forall w, hooks_coherent w ->
  exists w',
    run (List.map EditChange drafts) w = Some w'
    /\ hooks_coherent w'
    /\ memo_handleMouseDown w' = memo_handleMouseDown w
    /\ editingCell (st w') = editingCell (st w)
    /\ editValue (st w') = List.last drafts (editValue (st w))
    /\ sheet w' = sheet w /\ cellChanges w' = cellChanges w
    /\ onCellChange w' = onCellChange w.
Proof.
  induction drafts as [|v drafts IH]; intros w Hcoh.
  - exists w. split; [reflexivity|]. split; [exact Hcoh|]. repeat split.
  - destruct (dispatch_EditChange_keeps_handleMouseDown w v Hcoh)
      as (w1 & Hstep & Hmemo & Hcell & Hv & Hsheet & Hcalls & Hcb).
    assert (Hcoh1 : hooks_coherent w1) by (eapply dispatch_hooks_coherent; eauto).
    destruct (IH w1 Hcoh1)
      as (w' & Hrun & Hcoh' & Hmemo' & Hcell' & Hv' & Hsheet' & Hcalls' & Hcb').
    exists w'. cbn [List.map run]. rewrite Hstep.
    split; [exact Hrun|]. split; [exact Hcoh'|].
    split; [congruence|]. split; [congruence|].
    split; [|repeat split; congruence].
    rewrite Hv', Hv. destruct drafts as [|s drafts]; [reflexivity|].
    change (List.last (s :: drafts) v
            = List.last (s :: drafts) (editValue (st w))).
    apply last_cons_default.
Qed.

(** The defect behind C10 in general: whatever is typed after the double
    click, a press on a cell commits the value the cell had when the
    session was opened. *)
Lemma pointer_down_loses_typed_draft
    (w : World) (row col : Z) (drafts : list string) (row' col' : Z) :
  hooks_coherent w ->
  onCellChange w = true ->
  0 <= row < totalRows (data w) ->
  0 <= col ->
  exists w1 w2,
    run (DoubleClick row col :: List.map EditChange drafts) w = Some w1
    /\ editValue (st w1) = List.last drafts (cellValue (data w) row col)
    /\ dispatch (MouseDown row' col') w1 = Some w2
    /\ cellChanges w2
       = cellChanges w ++ [(row, col, cellValue (data w) row col)]
    /\ (forall r c, cellValue (data w2) r c = cellValue (data w) r c)
    /\ editingCell (st w2) = None.
Proof.
  intros Hcoh Hcb Hrow Hcol.
  destruct (dispatch_DoubleClick_captures_cell w row col Hcoh)
    as (wa & cell & Hstep & Hcell & Hpos & Hv & Hcap & Hsheet & Hcalls & Hcba).
  assert (Hcoha : hooks_coherent wa) by (eapply dispatch_hooks_coherent; eauto).
  destruct (run_EditChange_keeps_handleMouseDown drafts wa Hcoha)
    as (w1 & Hrun & Hcoh1 & Hmemo & Hcell1 & Hv1 & Hsheet1 & Hcalls1 & Hcb1).
  assert (Hdata : data w1 = data w) by (unfold data; congruence).
  destruct (pointer_down_commits_captured_draft w1 cell row' col' Hcoh1)
    as (w2 & Hdown & Hwritten & Hother & Hcalls2 & _ & Hidle).
  - congruence.
  - congruence.
  - rewrite Hpos, Hdata. exact Hrow.
  - rewrite Hpos. exact Hcol.
  - rewrite Hmemo, Hcap, Hpos in Hwritten, Hcalls2. rewrite Hpos in Hother.
    cbn in Hwritten, Hcalls2, Hother.
    exists w1, w2. cbn [run]. rewrite Hstep.
    split; [exact Hrun|]. split; [congruence|]. split; [exact Hdown|].
    split; [congruence|]. split; [|exact Hidle].
    intros r c.
    destruct (decide ((r, c) = (row, col))) as [[= -> ->]|Hne];
      [congruence|].
    rewrite <- Hdata. apply Hother. exact Hne.
Qed.

(** * Further properties of the grid engine *)

(** ** Column offsets *)

Lemma getColumnLeft_nonpos (columnWidths : gmap Z Z) (col : Z) :
  col <= 0 -> getColumnLeft columnWidths col = 0.
Proof.
  intros Hcol. unfold getColumnLeft.
  replace (Z.to_nat col) with 0%nat by lia. reflexivity.
Qed.

Lemma getColumnLeft_succ (columnWidths : gmap Z Z) (col : Z) :
  0 <= col ->
  getColumnLeft columnWidths (col + 1)
  = getColumnLeft columnWidths col + colWidthOf columnWidths col.
Proof.
  intros Hcol. unfold getColumnLeft.
  replace (Z.to_nat (col + 1)) with (S (Z.to_nat col)) by lia.
  rewrite seq_S, fold_left_app. cbn. rewrite Z2Nat.id by lia. reflexivity.
Qed.

Lemma getColumnLeft_mono_floor (columnWidths : gmap Z Z) (n : nat) (col : Z) :
  widths_above_floor columnWidths -> 0 <= col ->
  getColumnLeft columnWidths col + MIN_CELL_WIDTH * Z.of_nat n
  <= getColumnLeft columnWidths (col + Z.of_nat n).
Proof.
  intros Hinv Hcol. induction n as [|n IH].
  - replace (col + Z.of_nat 0) with col by lia. lia.
  - replace (col + Z.of_nat (S n)) with (col + Z.of_nat n + 1) by lia.
    rewrite getColumnLeft_succ by lia.
    pose proof (colWidthOf_above_floor columnWidths (col + Z.of_nat n) Hinv).
    lia.
Qed.

Lemma getColumnLeft_gap (columnWidths : gmap Z Z) (c1 c2 : Z) :
  widths_above_floor columnWidths -> 0 <= c1 <= c2 ->
  getColumnLeft columnWidths c1 + MIN_CELL_WIDTH * (c2 - c1)
  <= getColumnLeft columnWidths c2.
Proof.
  intros Hinv Hc.
  pose proof (getColumnLeft_mono_floor columnWidths (Z.to_nat (c2 - c1)) c1
                Hinv ltac:(lia)) as H.
  rewrite Z2Nat.id in H by lia.
  replace (c1 + (c2 - c1)) with c2 in H by lia. exact H.
Qed.

Lemma reachable_widths_above_floor (w : World) :
  reachable w -> widths_above_floor (val (columnWidths (st w))).
Proof.
  intros (sheet0 & cb1 & cb2 & el & events & Hrun).
  eapply run_widths_above_floor; [|exact Hrun].
  intros col width Hlook. cbn in Hlook. rewrite lookup_empty in Hlook.
  discriminate.
Qed.

Lemma reachable_range_memo_coherent (w : World) :
  reachable w -> range_memo_coherent w.
Proof.
  intros (sheet0 & cb1 & cb2 & el & events & Hrun).
  eapply run_range_memo_coherent; [|exact Hrun].
  apply mount_range_memo_coherent.
Qed.

Lemma reachable_hooks_coherent (w : World) :
  reachable w -> hooks_coherent w.
Proof.
  intros (sheet0 & cb1 & cb2 & el & events & Hrun).
  eapply run_hooks_coherent; [|exact Hrun].
  apply mount_hooks_coherent.
Qed.

Lemma reachable_mount sheet0 cb1 cb2 el : reachable (mount sheet0 cb1 cb2 el).
Proof. exists sheet0, cb1, cb2, el, []. reflexivity. Qed.

Lemma run_app events1 : forall events2 w,
  run (events1 ++ events2) w
  = match run events1 w with
    | Some w1 => run events2 w1
    | None => None
    end.
Proof.
  induction events1 as [|e events1 IH]; intros events2 w; [reflexivity|].
  cbn [app run]. destruct (dispatch e w); [apply IH | reflexivity].
Qed.

Lemma reachable_run events w w' :
  reachable w -> run events w = Some w' -> reachable w'.
Proof.
  intros (sheet0 & cb1 & cb2 & el & events0 & Hrun0) Hrun.
  exists sheet0, cb1, cb2, el, (events0 ++ events).
  rewrite run_app, Hrun0. exact Hrun.
Qed.

(** The range in use starts at a non-negative row and column. *)
Lemma range_memo_start_nonneg (w : World) :
  range_memo_coherent w ->
  0 <= VisibleRange.startRow (value (memo_visibleRange w))
  /\ 0 <= VisibleRange.startCol (value (memo_visibleRange w)).
Proof.
  intros (_ & (current & Hval) & _). rewrite Hval.
  destruct current as [el|]; [|cbn; lia].
  pose proof (visibleRange_measured_bounds el (val (scrollPosition (st w)))
                (data w) (val (columnWidths (st w)))) as (H1 & _ & H3 & _).
  cbv zeta in H1, H3. lia.
Qed.

(** ** Geometry of the drawn cells *)

(** X1. In every reachable world two drawn cells whose rectangles share a
    pixel are the same cell: rows are [CELL_HEIGHT] apart, and within a row
    each cell starts where the previous one ends. *)
Theorem drawn_cells_do_not_overlap (w : World) (d1 d2 : CellDescriptor) :
  reachable w ->
  In d1 (render w) -> In d2 (render w) ->
  overlap d1 d2 ->
  d1 = d2.
Proof.
  intros Hreach Hin1 Hin2 (Hl1 & Hl2 & Ht1 & Ht2).
  pose proof (reachable_widths_above_floor w Hreach) as Hfloor.
  pose proof (range_memo_start_nonneg w (reachable_range_memo_coherent w Hreach))
    as [_ Hstart].
  unfold render in Hin1, Hin2.
  apply in_cellLoop in Hin1 as (r1 & c1 & _ & Hc1 & ->).
  apply in_cellLoop in Hin2 as (r2 & c2 & _ & Hc2 & ->).
  cbn in Hl1, Hl2, Ht1, Ht2. unfold CELL_HEIGHT in Ht1, Ht2.
  assert (r1 = r2) by lia. subst r2.
  assert (c1 = c2); [|subst; reflexivity].
  destruct (Z.lt_trichotomy c1 c2) as [Hlt|[Heq|Hgt]]; [exfalso|exact Heq|exfalso].
  - pose proof (getColumnLeft_gap _ (c1 + 1) c2 Hfloor ltac:(lia)) as Hgap.
    rewrite getColumnLeft_succ in Hgap by lia. unfold MIN_CELL_WIDTH in Hgap. lia.
  - pose proof (getColumnLeft_gap _ (c2 + 1) c1 Hfloor ltac:(lia)) as Hgap.
    rewrite getColumnLeft_succ in Hgap by lia. unfold MIN_CELL_WIDTH in Hgap. lia.
Qed.

Lemma drawn_cells_do_not_overlap_witness :
  let w := mount (Some [["a"; "b"]; ["c"; "10"]]%string) true true
                 {| clientWidth := 860; clientHeight := 625 |} in
  ~ overlap (renderCell w 0 0) (renderCell w 0 1).
Proof.
  intros w Hover.
  assert (Hin : forall row col, 0 <= row < 50 -> 0 <= col < 20 ->
                  In (renderCell w row col) (render w)).
  { intros row col Hr Hc. apply in_cellLoop. exists row, col. cbn. auto. }
  pose proof (drawn_cells_do_not_overlap w _ _ (reachable_mount _ _ _ _)
                (Hin 0 0 ltac:(lia) ltac:(lia)) (Hin 0 1 ltac:(lia) ltac:(lia))
                Hover) as Heq.
  apply (f_equal cd_col) in Heq. cbn in Heq. discriminate.
Defined.

(** X2. In every reachable world the rectangle of every cell of the grid
    lies inside the scroll area of [totalWidth] by [totalHeight] pixels. *)
Theorem grid_cells_inside_scroll_area (w : World) (row col : Z) :
  reachable w ->
  0 <= row < totalRows (data w) ->
  0 <= col < totalCols (data w) ->
  let d := renderCell w row col in
  0 <= cd_left d
  /\ cd_left d + cd_width d <= totalWidth (val (columnWidths (st w))) (data w)
  /\ 0 <= cd_top d
  /\ cd_top d + cd_height d <= totalHeight (data w).
Proof.
  intros Hreach Hrow Hcol d. subst d. cbn.
  pose proof (reachable_widths_above_floor w Hreach) as Hfloor.
  pose proof (getColumnLeft_gap _ 0 col Hfloor ltac:(lia)) as H0.
  rewrite (getColumnLeft_nonpos _ 0) in H0 by lia.
  pose proof (getColumnLeft_gap _ (col + 1) (totalCols (data w)) Hfloor
                ltac:(lia)) as H1.
  rewrite getColumnLeft_succ in H1 by lia.
  unfold totalWidth, totalHeight, MIN_CELL_WIDTH, CELL_HEIGHT in *.
  repeat split; lia.
Qed.

Lemma grid_cells_inside_scroll_area_witness :
  let w := mount (Some [["a"; "b"]; ["c"; "10"]]%string) true true
                 {| clientWidth := 860; clientHeight := 625 |} in
  cd_left (renderCell w 1 1) + cd_width (renderCell w 1 1) <= 200
  /\ cd_top (renderCell w 1 1) + cd_height (renderCell w 1 1) <= 50.
Proof.
  intros w.
  pose proof (grid_cells_inside_scroll_area w 1 1 (reachable_mount _ _ _ _))
    as H.
  destruct H as (_ & Hw & _ & Hh).
  - vm_compute. split; [discriminate | reflexivity].
  - vm_compute. split; [discriminate | reflexivity].
  - split; [exact Hw | exact Hh].
Defined.

(** ** Order of the drawn cells *)

Lemma StronglySorted_app {A} (R : A -> A -> Prop) (l1 l2 : list A) :
  StronglySorted R l1 -> StronglySorted R l2 ->
  (forall a b, In a l1 -> In b l2 -> R a b) ->
  StronglySorted R (l1 ++ l2).
Proof.
  intros H1 H2 H12. induction H1 as [|a l1 Hs IH Hall]; [exact H2|].
  cbn. constructor.
  - apply IH. intros x y Hx Hy. apply H12; [right; exact Hx | exact Hy].
  - apply List.Forall_app. split; [exact Hall|].
    apply List.Forall_forall. intros y Hy. apply H12; [left; reflexivity | exact Hy].
Qed.

Lemma StronglySorted_map_seq {A} (R : A -> A -> Prop) (g : nat -> A) (n : nat) :
  (forall i j, (i < j)%nat -> R (g i) (g j)) ->
  forall start, StronglySorted R (List.map g (seq start n)).
Proof.
  intros Hmono. induction n as [|n IH]; intros start; cbn; constructor.
  - apply IH.
  - apply List.Forall_forall. intros y Hy.
    apply in_map_iff in Hy as (j & <- & Hj). apply in_seq in Hj.
    apply Hmono. lia.
Qed.

Lemma length_concat_const {A} (L : list (list A)) (n : nat) :
  Forall (fun l => length l = n) L ->
  length (concat L) = (length L * n)%nat.
Proof.
  induction 1 as [|l L Hl _ IH]; [reflexivity|].
  cbn. rewrite length_app, IH, Hl. reflexivity.
Qed.

Lemma cellLoop_map {A B} (g : A -> B) (r : VisibleRange.t) (f : Z -> Z -> A) :
  List.map g (cellLoop r f) = cellLoop r (fun row col => g (f row col)).
Proof.
  unfold cellLoop, Js.Array_from. rewrite concat_map, !List.map_map.
  f_equal. apply List.map_ext. intros i. rewrite List.map_map. reflexivity.
Qed.

(** X3. In every world the cells are drawn in row-major order, each cell of
    the range in use once: the keys are strictly increasing, and their
    number is the number of rows of the range times its number of
    columns. *)
Theorem render_row_major_each_cell_once (w : World) :
  let r := value (memo_visibleRange w) in
  StronglySorted row_major_lt (List.map cd_key (render w))
  /\ length (render w)
     = (Z.to_nat (VisibleRange.endRow r - VisibleRange.startRow r)
        * Z.to_nat (VisibleRange.endCol r - VisibleRange.startCol r))%nat.
Proof.
  intros r. unfold render. fold r. split.
  - rewrite cellLoop_map. unfold cd_key. cbn. unfold cellLoop, Js.Array_from.
    induction (Z.to_nat (VisibleRange.endRow r - VisibleRange.startRow r))
      as [|n IH]; [constructor|].
    rewrite seq_S, List.map_app, concat_app. cbn. rewrite app_nil_r.
    apply StronglySorted_app.
    + exact IH.
    + apply StronglySorted_map_seq. intros i j Hij. right. cbn. lia.
    + intros a b Ha Hb.
      apply in_concat in Ha as (l & Hl & Ha).
      apply in_map_iff in Hl as (i & <- & Hi). apply in_seq in Hi.
      apply in_map_iff in Ha as (j & <- & _).
      apply in_map_iff in Hb as (k & <- & _).
      left. cbn. lia.
  - unfold cellLoop. rewrite (length_concat_const _
      (Z.to_nat (VisibleRange.endCol r - VisibleRange.startCol r))).
    + unfold Js.Array_from. rewrite length_map, length_seq. reflexivity.
    + apply List.Forall_forall. intros l Hl.
      unfold Js.Array_from in Hl. apply in_map_iff in Hl as (i & <- & _).
      rewrite length_map, length_seq. reflexivity.
Qed.

(** ** What the column loop finds *)

Section ColumnScan.

Variables (scrollX containerWidth : Z) (widths : gmap Z Z).

Let L := getColumnLeft widths.
Let limit := scrollX + containerWidth + VISIBLE_BUFFER * DEFAULT_CELL_WIDTH.

Hypothesis limit_nonneg : 0 <= limit.

(** The loop stops at the first column whose left edge is beyond the
    window plus its allowance, and has then found, if there is one among
    the columns it looked at, the first column whose right edge is beyond
    [scrollX]. [scanned] is the number of columns it looked at. *)
Lemma scanColumns_spec (n : nat) : forall col s,
  0 <= col ->
  ColScan.accumulatedWidth s = L col ->
  ColScan.endCol s = 0 ->
  (forall b, 0 <= b < col -> L b <= limit) ->
  (if ColScan.startFound s
   then exists c0, 0 <= c0 < col
                   /\ ColScan.startCol s = Z.max 0 (c0 - VISIBLE_BUFFER)
                   /\ scrollX < L (c0 + 1)
                   /\ forall c, 0 <= c < c0 -> L (c + 1) <= scrollX
   else ColScan.startCol s = 0
        /\ forall c, 0 <= c < col -> L (c + 1) <= scrollX) ->
  let r := scanColumns scrollX containerWidth widths n col s in
  let scanned := if ColScan.endCol r =? 0 then col + Z.of_nat n
                 else ColScan.endCol r + 1 in
  (ColScan.endCol r = 0 -> forall b, 0 <= b < col + Z.of_nat n -> L b <= limit)
  /\ (ColScan.endCol r <> 0 ->
      col <= ColScan.endCol r < col + Z.of_nat n
      /\ limit < L (ColScan.endCol r)
      /\ forall b, 0 <= b < ColScan.endCol r -> L b <= limit)
  /\ (if ColScan.startFound r
      then exists c0, 0 <= c0 < scanned
                      /\ ColScan.startCol r = Z.max 0 (c0 - VISIBLE_BUFFER)
                      /\ scrollX < L (c0 + 1)
                      /\ forall c, 0 <= c < c0 -> L (c + 1) <= scrollX
      else ColScan.startCol r = 0
           /\ forall c, 0 <= c < scanned -> L (c + 1) <= scrollX).
Proof.
  induction n as [|n IH]; intros col s Hcol Hacc Hend Hlim Hstart.
  - cbn [scanColumns]. rewrite Hend. cbn [Z.eqb].
    replace (col + Z.of_nat 0) with col by lia.
    split; [intros _; exact Hlim|]. split; [intros H; congruence|].
    exact Hstart.
  - cbn [scanColumns].
    set (colWidth := colWidthOf widths col).
    set (s1 := if negb (ColScan.startFound s)
                  && (ColScan.accumulatedWidth s + colWidth >? scrollX)
               then _ else s).
    assert (Hsucc : L (col + 1) = L col + colWidth)
      by (apply getColumnLeft_succ; exact Hcol).
    assert (Hs1 :
      ColScan.accumulatedWidth s1 = L col /\ ColScan.endCol s1 = 0
      /\ (if ColScan.startFound s1
          then exists c0, 0 <= c0 < col + 1
                          /\ ColScan.startCol s1 = Z.max 0 (c0 - VISIBLE_BUFFER)
                          /\ scrollX < L (c0 + 1)
                          /\ forall c, 0 <= c < c0 -> L (c + 1) <= scrollX
          else ColScan.startCol s1 = 0
               /\ forall c, 0 <= c < col + 1 -> L (c + 1) <= scrollX)).
    { subst s1. destruct (ColScan.startFound s) eqn:Hfound; cbn.
      - rewrite Hfound. split; [exact Hacc|]. split; [exact Hend|].
        destruct Hstart as (c0 & Hc0 & Hrest). exists c0. split; [lia|exact Hrest].
      - destruct (ColScan.accumulatedWidth s + colWidth >? scrollX) eqn:Hgt; cbn.
        + split; [exact Hacc|]. split; [exact Hend|].
          exists col. split; [lia|]. split; [reflexivity|].
          split; [rewrite Hsucc, <- Hacc; lia|]. apply Hstart.
        + rewrite Hfound. split; [exact Hacc|]. split; [exact Hend|].
          destruct Hstart as [Hzero Hbefore]. split; [exact Hzero|].
          intros c Hc. destruct (decide (c = col)) as [->|Hne].
          * rewrite Hsucc, <- Hacc. lia.
          * apply Hbefore. lia. }
    destruct Hs1 as (Hacc1 & Hend1 & Hstart1).
    fold limit.
    destruct (ColScan.accumulatedWidth s1 >? limit) eqn:Hbreak.
    + assert (Hcol0 : col <> 0).
      { intros ->. rewrite Hacc1 in Hbreak. unfold L in Hbreak.
        rewrite getColumnLeft_nonpos in Hbreak by lia. lia. }
      cbn. destruct (col =? 0) eqn:E; [lia|].
      split; [intros H; lia|]. split.
      * intros _. split; [lia|]. split; [rewrite <- Hacc1; lia | exact Hlim].
      * exact Hstart1.
    + match goal with
      | |- context [scanColumns _ _ _ n (col + 1) ?s2] =>
          specialize (IH (col + 1) s2)
      end.
      cbn [ColScan.accumulatedWidth ColScan.endCol ColScan.startFound
           ColScan.startCol] in IH.
      specialize (IH ltac:(lia) ltac:(rewrite Hacc1, Hsucc; reflexivity) Hend1).
      assert (Hlim1 : forall b, 0 <= b < col + 1 -> L b <= limit).
      { intros b Hb. destruct (decide (b = col)) as [->|Hne].
        - rewrite <- Hacc1. lia.
        - apply Hlim. lia. }
      specialize (IH Hlim1 Hstart1).
      replace (col + 1 + Z.of_nat n) with (col + Z.of_nat (S n)) in IH by lia.
      destruct IH as (IH1 & IH2 & IH3).
      split; [exact IH1|]. split; [|exact IH3].
      intros Hne. destruct (IH2 Hne) as (Hr & Hrest). split; [lia | exact Hrest].
Qed.

End ColumnScan.

(** ** The range against the window *)

Lemma Math_ceil_div_upper (a : Z) :
  a <= CELL_HEIGHT * Js.Math_ceil_div a CELL_HEIGHT
  < a + CELL_HEIGHT.
Proof.
  unfold Js.Math_ceil_div, CELL_HEIGHT.
  pose proof (Z.div_mod (- a) 25 ltac:(lia)).
  pose proof (Z.mod_pos_bound (- a) 25 ltac:(lia)).
  lia.
Qed.

Lemma Math_floor_div_lower (a : Z) :
  CELL_HEIGHT * Js.Math_floor_div a CELL_HEIGHT <= a
  < CELL_HEIGHT * Js.Math_floor_div a CELL_HEIGHT + CELL_HEIGHT.
Proof.
  unfold Js.Math_floor_div, CELL_HEIGHT.
  pose proof (Z.div_mod a 25 ltac:(lia)).
  pose proof (Z.mod_pos_bound a 25 ltac:(lia)).
  lia.
Qed.



(** X5. The size of the computed range depends on the container, not on
    the grid: it has at most [ceil (clientHeight / 25) + 2 * VISIBLE_BUFFER]
    rows, and, with column widths at least [MIN_CELL_WIDTH] and a scroll
    offset inside the content, at most
    [(clientWidth + 440) / MIN_CELL_WIDTH + VISIBLE_BUFFER + 2] columns. *)
Theorem range_size_bounded_by_container
    (el : Container) (scrollPosition : ScrollPosition.t) (data : Grid)
    (widths : gmap Z Z) :
  let r := visibleRange (Some el) scrollPosition (totalRows data)
                        (totalCols data) widths in
  VisibleRange.endRow r - VisibleRange.startRow r
  <= Js.Math_ceil_div (clientHeight el) CELL_HEIGHT + 2 * VISIBLE_BUFFER
  /\ (widths_above_floor widths ->
      0 <= clientWidth el ->
      0 <= ScrollPosition.x scrollPosition < totalWidth widths data ->
      VisibleRange.endCol r - VisibleRange.startCol r
      <= (clientWidth el + 440) / MIN_CELL_WIDTH + VISIBLE_BUFFER + 2).
Proof.
  intros r. destruct scrollPosition as [x y].
  subst r. cbn [visibleRange VisibleRange.startRow VisibleRange.endRow
                VisibleRange.startCol VisibleRange.endCol
                ScrollPosition.x ScrollPosition.y].
  split.
  - pose proof (Math_floor_div_lower y) as Hf.
    pose proof (Math_ceil_div_upper (y + (clientHeight el - CELL_HEIGHT))) as Hc.
    pose proof (Math_ceil_div_upper (clientHeight el)) as Hh.
    unfold VISIBLE_BUFFER, CELL_HEIGHT in *. lia.
  - intros Hfloor Hwidth Hx. unfold totalWidth in Hx.
    pose proof (totalCols_nonneg data) as HC.
    pose proof (scanColumns_spec x (clientWidth el - ROW_HEADER_WIDTH) widths
                  ltac:(unfold ROW_HEADER_WIDTH, VISIBLE_BUFFER,
                          DEFAULT_CELL_WIDTH; lia)
                  (Z.to_nat (totalCols data)) 0 (ColScan.mk 0 0 0 false)
                  ltac:(lia)
                  ltac:(cbn; rewrite getColumnLeft_nonpos by lia; reflexivity)
                  eq_refl ltac:(intros; lia)
                  ltac:(cbn; split; [reflexivity | intros; lia]))
      as (Hend0 & Hend1 & Hstart).
    cbv zeta in Hend0, Hend1, Hstart.
    set (s := scanColumns _ _ _ _ _ _) in *.
    rewrite Z2Nat.id in * by lia.
    replace (0 + totalCols data) with (totalCols data) in * by lia.
    set (C := totalCols data) in *.
    set (L := getColumnLeft widths) in *.
    assert (HC1 : 1 <= C).
    { destruct (Z_lt_ge_dec 0 C); [lia|]. replace C with 0 in Hx by lia.
      unfold L in Hx. rewrite getColumnLeft_nonpos in Hx by lia. lia. }
    assert (Hgap : forall c1 c2, 0 <= c1 <= c2 -> L c1 + 50 * (c2 - c1) <= L c2).
    { intros c1 c2 Hc. apply (getColumnLeft_gap widths c1 c2 Hfloor Hc). }
    assert (Hsucc : forall c, 0 <= c -> L c <= L (c + 1)).
    { intros c Hc. specialize (Hgap c (c + 1) ltac:(lia)). lia. }
    (* the end of the range and the column before it *)
    set (e := if ColScan.endCol s =? 0 then C else ColScan.endCol s).
    assert (He : 1 <= e <= C
                 /\ (forall b, 0 <= b < e -> L b <= x + clientWidth el + 440)
                 /\ (if ColScan.endCol s =? 0 then C else ColScan.endCol s + 1)
                    <= e + 1
                 /\ (ColScan.endCol s <> 0 -> x + clientWidth el + 440 < L e)).
    { subst e. destruct (ColScan.endCol s =? 0) eqn:E.
      - apply Z.eqb_eq in E. specialize (Hend0 E).
        split; [lia|]. split; [|split; [lia | congruence]].
        intros b Hb. specialize (Hend0 b Hb).
        unfold ROW_HEADER_WIDTH, VISIBLE_BUFFER, DEFAULT_CELL_WIDTH in Hend0. lia.
      - apply Z.eqb_neq in E. destruct (Hend1 E) as (Hb & Hover & Hbefore).
        split; [lia|]. split; [|split; [lia|]].
        + intros b Hb'. specialize (Hbefore b Hb').
          unfold ROW_HEADER_WIDTH, VISIBLE_BUFFER, DEFAULT_CELL_WIDTH in Hbefore.
          lia.
        + intros _. unfold ROW_HEADER_WIDTH, VISIBLE_BUFFER,
            DEFAULT_CELL_WIDTH in Hover. lia. }
    destruct He as (He1 & Hbefore & Hscanned & Hover).
    fold e. unfold MIN_CELL_WIDTH, VISIBLE_BUFFER.
    assert (Hdiv : forall k, 50 * k <= clientWidth el + 440 ->
                             k <= (clientWidth el + 440) / 50).
    { intros k Hk. apply Z.div_le_lower_bound; lia. }
    destruct (ColScan.startFound s).
    + destruct Hstart as (c0 & Hc0 & -> & Hx0 & _).
      unfold VISIBLE_BUFFER.
      destruct (Z_lt_ge_dec e (c0 + 2)) as [Hnear|Hfar].
      * specialize (Hdiv 0 ltac:(lia)). lia.
      * specialize (Hbefore (e - 1) ltac:(lia)).
        specialize (Hgap (c0 + 1) (e - 1) ltac:(lia)).
        specialize (Hdiv (e - 1 - (c0 + 1)) ltac:(lia)). lia.
    + destruct Hstart as [_ Hnone]. exfalso.
      destruct (ColScan.endCol s =? 0) eqn:E.
      * specialize (Hnone (C - 1) ltac:(lia)).
        replace (C - 1 + 1) with C in Hnone by lia. lia.
      * apply Z.eqb_neq in E. specialize (Hover E).
        destruct (Hend1 E) as (Hb & _ & _).
        specialize (Hnone (ColScan.endCol s) ltac:(lia)).
        specialize (Hsucc (ColScan.endCol s) ltac:(lia)).
        subst e. lia.
Qed.

Lemma range_size_bounded_by_container_witness :
  let r := visibleRange (Some {| clientWidth := 860; clientHeight := 625 |})
             (ScrollPosition.mk 1000 5000)
             (totalRows (repeat (repeat EmptyString 30) 1000))
             (totalCols (repeat (repeat EmptyString 30) 1000)) ∅ in
  VisibleRange.endRow r - VisibleRange.startRow r <= 35
  /\ VisibleRange.endCol r - VisibleRange.startCol r <= 33.
Proof.
  pose proof (range_size_bounded_by_container
                {| clientWidth := 860; clientHeight := 625 |}
                (ScrollPosition.mk 1000 5000)
                (repeat (repeat EmptyString 30) 1000) ∅) as [Hrows Hcols].
  split.
  - exact Hrows.
  - apply Hcols.
    + intros col width H. rewrite lookup_empty in H. discriminate.
    + cbn. lia.
    + vm_compute. split; [discriminate | reflexivity].
Defined.

(** ** The range after the first recomputation *)

(** What a handler leaves alone: the memoized range, the ref once set, and
    the identity of the objects it does not replace. *)
Lemma handler_frame e w w1 :
  handler e w = Some (tt, w1) ->
  (oid (scrollPosition (st w)) < heap w)%nat ->
  (oid (columnWidths (st w)) < heap w)%nat ->
  memo_visibleRange w1 = memo_visibleRange w
  /\ (scrollContainerRef w <> None -> scrollContainerRef w1 <> None)
  /\ (oid (scrollPosition (st w1)) < heap w1)%nat
  /\ (oid (columnWidths (st w1)) < heap w1)%nat
  /\ (oid (scrollPosition (st w1)) = oid (scrollPosition (st w)) ->
      scrollPosition (st w1) = scrollPosition (st w))
  /\ (oid (columnWidths (st w1)) = oid (columnWidths (st w)) ->
      columnWidths (st w1) = columnWidths (st w)).
Proof.
  intros Hh Hsp Hcw. revert Hh. destruct_world w. cbn in Hsp, Hcw.
  destruct e; step_handlers; intros Hh.
  all: split_cases; simplify_eq/=.
  all: repeat split; auto; try lia; try discriminate.
Qed.

Lemma dispatch_range_memo_measured e w w' :
  range_memo_measured w -> dispatch e w = Some w' -> range_memo_measured w'.
Proof.
  intros (Href & Hdeps & (el & Hval) & Hsp & Hcw) Hstep.
  unfold dispatch in Hstep.
  destruct (handler e w) as [[[] w1]|] eqn:Hh; [|discriminate].
  injection Hstep as <-.
  destruct (handler_frame e w w1 Hh Hsp Hcw)
    as (Hmemo & Href1 & Hsp1 & Hcw1 & Hspid & Hcwid).
  specialize (Href1 Href).
  unfold range_memo_measured, rerender. cbn.
  split; [exact Href1|].
  destruct (rangeDeps_same (deps (memo_visibleRange w1)) (rangeDeps w1)) eqn:Hsame.
  - apply rangeDeps_same_eq in Hsame.
    split; [exact Hsame|]. split; [|split; assumption].
    rewrite Hmemo in Hsame |- *. rewrite Hdeps in Hsame.
    unfold rangeDeps in Hsame. injection Hsame as Hi Hr Hc Hj.
    exists el. rewrite Hval.
    rewrite (Hspid (eq_sym Hi)), (Hcwid (eq_sym Hj)).
    unfold rangeDeps. cbn. rewrite Hr, Hc. reflexivity.
  - cbn. split; [reflexivity|]. split; [|split; assumption].
    destruct (scrollContainerRef w1) as [el1|] eqn:E; [|contradiction].
    exists el1. unfold computeVisibleRange. rewrite E. reflexivity.
Qed.

Lemma run_range_memo_measured events : forall w w',
  range_memo_measured w -> run events w = Some w' -> range_memo_measured w'.
Proof.
  induction events as [|e events IH]; intros w w' Hm Hrun; simpl in Hrun.
  - injection Hrun as <-. exact Hm.
  - destruct (dispatch e w) as [w1|] eqn:E; [|discriminate].
    eauto using dispatch_range_memo_measured.
Qed.

Lemma run_scrollContainerRef events : forall w w',
  scrollContainerRef w <> None -> run events w = Some w' ->
  scrollContainerRef w' <> None.
Proof.
  induction events as [|e events IH]; intros w w' Href Hrun; simpl in Hrun.
  - injection Hrun as <-. exact Href.
  - destruct (dispatch e w) as [w1|] eqn:E; [|discriminate].
    apply (IH w1 w'); [|exact Hrun].
    clear - Href E. revert E. destruct_world w. cbn in Href.
    destruct e; step_handlers; intros E.
    all: split_cases; simplify_eq/=; auto.
Qed.

(** A scroll event makes a new [scrollPosition] object, so the range is
    computed again, now with the container in place. *)
Lemma dispatch_Scroll_measures (w w' : World) (scrollLeft scrollTop : Z) :
  range_memo_coherent w -> scrollContainerRef w <> None ->
  dispatch (Scroll scrollLeft scrollTop) w = Some w' ->
  range_memo_measured w'.
Proof.
  intros (Hdeps & _ & Hsp & Hcw) Href. destruct_world w.
  destruct memo_visibleRange0 as [d v]. unfold rangeDeps in Hdeps.
  cbn in Hdeps, Hsp, Hcw, Href. subst d.
  step_handlers. intros [= <-].
  unfold range_memo_measured, rerender, rangeDeps, rangeDeps_same,
    computeVisibleRange. cbn.
  destruct (oid scrollPosition0 =? heap0)%nat eqn:E;
    [apply Nat.eqb_eq in E; lia|].
  cbn. split; [exact Href|]. split; [reflexivity|].
  split; [|split; lia].
  destruct scrollContainerRef0 as [el|]; [|contradiction].
  exists el. reflexivity.
Qed.

(** X6. In every reachable world, from a scroll event on, whatever events
    follow, every drawn cell is a cell of the grid: the fixed range of the
    first render is gone for good. *)
Theorem after_scroll_drawn_cells_in_grid
    (w0 w : World) (scrollLeft scrollTop : Z) (events : list Event)
    (d : CellDescriptor) :
  reachable w0 ->
  run (Scroll scrollLeft scrollTop :: events) w0 = Some w ->
  In d (render w) ->
  0 <= cd_row d < totalRows (data w) /\ 0 <= cd_col d < totalCols (data w).
Proof.
  intros Hreach Hrun Hin. cbn [run] in Hrun.
  destruct (dispatch (Scroll scrollLeft scrollTop) w0) as [w1|] eqn:Hscroll;
    [|discriminate].
  assert (Href : scrollContainerRef w0 <> None).
  { destruct Hreach as (sheet0 & cb1 & cb2 & el & events0 & Hrun0).
    eapply run_scrollContainerRef; [|exact Hrun0]. cbn. discriminate. }
  pose proof (dispatch_Scroll_measures w0 w1 _ _
                (reachable_range_memo_coherent w0 Hreach) Href Hscroll) as Hm1.
  pose proof (run_range_memo_measured events w1 w Hm1 Hrun)
    as (_ & _ & (el & Hval) & _).
  eapply render_measured_within_grid; eauto.
Qed.

Lemma after_scroll_drawn_cells_in_grid_witness :
  let w0 := mount (Some [["x"]]%string) true true
                  {| clientWidth := 860; clientHeight := 625 |} in
  exists w,
    run [Scroll 0 0; MouseDown 0 0; MouseUp] w0 = Some w
    /\ List.Forall (fun d => 0 <= cd_row d < 1 /\ 0 <= cd_col d < 1) (render w).
Proof.
  intros w0.
  destruct (run [Scroll 0 0; MouseDown 0 0; MouseUp] w0) as [w|] eqn:Hrun;
    [|vm_compute in Hrun; discriminate].
  exists w. split; [reflexivity|].
  apply List.Forall_forall. intros d Hin.
  pose proof (after_scroll_drawn_cells_in_grid w0 w 0 0 [MouseDown 0 0; MouseUp] d
                (reachable_mount _ _ _ _) Hrun Hin) as H.
  assert (Hw : Some w = run [Scroll 0 0; MouseDown 0 0; MouseUp] w0)
    by (symmetry; exact Hrun).
  vm_compute in Hw. injection Hw as Hw.
  rewrite Hw in H. exact H.
Defined.

(** ** Selection by pointer *)

Lemma dispatch_MouseDown_selects (w w' : World) (row col : Z) :
  dispatch (MouseDown row col) w = Some w' ->
  selection (st w') = Some (single_cell row col)
  /\ isSelecting (st w') = true.
Proof.
  destruct_world w. step_handlers. intros H. split_cases.
Qed.

(** X7. After a press on a cell that returns, that cell is selected and no
    other: membership holds for the anchor before any move. *)
Theorem press_selects_exactly_the_pressed_cell
    (w w' : World) (row col r c : Z) :
  dispatch (MouseDown row col) w = Some w' ->
  isCellSelected (selection (st w')) r c = true <-> (r = row /\ c = col).
Proof.
  intros Hstep. destruct (dispatch_MouseDown_selects w w' row col Hstep) as [-> _].
  unfold single_cell. rewrite isCellSelected_in_rectangle.
  unfold in_rectangle. cbn. lia.
Qed.

Lemma press_selects_exactly_the_pressed_cell_witness :
  let w0 := mount (Some [["a"; "b"]; ["c"; "10"]]%string) true true
                  {| clientWidth := 860; clientHeight := 625 |} in
  exists w',
    dispatch (MouseDown 1 0) w0 = Some w'
    /\ isCellSelected (selection (st w')) 1 0 = true
    /\ isCellSelected (selection (st w')) 1 1 = false.
Proof.
  intros w0.
  destruct (dispatch (MouseDown 1 0) w0) as [w'|] eqn:Hstep;
    [|vm_compute in Hstep; discriminate].
  pose proof (press_selects_exactly_the_pressed_cell w0 w' 1 0 1 0 Hstep) as H1.
  pose proof (press_selects_exactly_the_pressed_cell w0 w' 1 0 1 1 Hstep) as H2.
  exists w'. split; [reflexivity|]. split.
  - apply H1. split; reflexivity.
  - destruct (isCellSelected (selection (st w')) 1 1); [|reflexivity].
    destruct H2 as [H2 _]. destruct (H2 eq_refl) as [_ H]. discriminate.
Defined.

Lemma last_map_Some_app {A} (l : list A) (a : A) :
  List.last (List.map Some (l ++ [a])) None = Some a.
Proof.
  rewrite List.map_app. cbn. apply List.last_last.
Qed.

Lemma dispatch_selection_reported e w w' :
  onSelectionChange w = true ->
  selection (st w) = last_reported w ->
  dispatch e w = Some w' ->
  onSelectionChange w' = true /\ selection (st w') = last_reported w'.
Proof.
  intros Hcb Hinv Hstep. unfold last_reported in *.
  destruct_world w. cbn in Hcb, Hinv. subst.
  destruct e; revert Hstep; step_handlers; intros Hstep.
  all: split_cases; simplify_eq/=.
  all: rewrite ?last_map_Some_app; auto.
Qed.

(** X8. When [onSelectionChange] is supplied, the collaborator is never out
    of date: in every world reached from the mounted component the
    selection is the last one reported ([null] if none was). *)
Theorem selection_is_last_reported
    (sheet0 : option Grid) (cb1 : bool) (el : Container)
    (events : list Event) (w : World) :
  run events (mount sheet0 cb1 true el) = Some w ->
  selection (st w) = last_reported w.
Proof.
  assert (Hgen : forall events w0 w,
            onSelectionChange w0 = true ->
            selection (st w0) = last_reported w0 ->
            run events w0 = Some w ->
            selection (st w) = last_reported w).
  { clear. induction events as [|e events IH]; intros w0 w Hcb Hinv Hrun;
      simpl in Hrun.
    - injection Hrun as <-. exact Hinv.
    - destruct (dispatch e w0) as [w1|] eqn:E; [|discriminate].
      destruct (dispatch_selection_reported e w0 w1 Hcb Hinv E) as [Hcb1 Hinv1].
      eapply IH; eauto. }
  intros Hrun. eapply Hgen; [| |exact Hrun]; reflexivity.
Qed.

Lemma selection_is_last_reported_witness :
  let w0 := mount (Some [["a"; "b"]; ["c"; "10"]]%string) true true
                  {| clientWidth := 860; clientHeight := 625 |} in
  exists w,
    run [MouseDown 0 0; MouseMove 1 1; MouseUp] w0 = Some w
    /\ last_reported w
       = Some (CellSelection.mk (CellPos.mk 0 0) (CellPos.mk 1 1)).
Proof.
  intros w0.
  destruct (run [MouseDown 0 0; MouseMove 1 1; MouseUp] w0) as [w|] eqn:Hrun;
    [|vm_compute in Hrun; discriminate].
  exists w. split; [reflexivity|].
  rewrite <- (selection_is_last_reported _ _ _ _ _ Hrun).
  assert (Hw : Some w = run [MouseDown 0 0; MouseMove 1 1; MouseUp] w0)
    by (symmetry; exact Hrun).
  vm_compute in Hw. injection Hw as ->. reflexivity.
Defined.

Lemma dispatch_MouseMove_dragging (w : World) (sel : CellSelection.t)
      (row col : Z) :
  isSelecting (st w) = true -> selection (st w) = Some sel ->
  exists w',
    dispatch (MouseMove row col) w = Some w'
    /\ selection (st w')
       = Some (CellSelection.mk (CellSelection.start sel) (CellPos.mk row col))
    /\ isSelecting (st w') = true.
Proof.
  intros Hdrag Hsel. destruct_world w. cbn in Hdrag, Hsel. subst.
  step_handlers. destruct onSelectionChange0; cbn;
    (eexists; split; [reflexivity|]); cbn; auto.
Qed.

Lemma dispatch_MouseMove_idle (w : World) (row col : Z) :
  isSelecting (st w) = false ->
  exists w',
    dispatch (MouseMove row col) w = Some w'
    /\ selection (st w') = selection (st w)
    /\ isSelecting (st w') = false
    /\ selectionChanges w' = selectionChanges w.
Proof.
  intros Hdrag. destruct_world w. cbn in Hdrag. subst.
  step_handlers. eexists; split; [reflexivity|]. cbn. auto.
Qed.

Lemma run_moves_dragging (cells : list (Z * Z)) : forall (w : World) anchor focus,
  isSelecting (st w) = true ->
  selection (st w) = Some (CellSelection.mk anchor focus) ->
  exists w',
    run (moves cells) w = Some w'
    /\ selection (st w')
       = Some (CellSelection.mk anchor
                 (List.last (List.map (fun cell => CellPos.mk (fst cell) (snd cell))
                                      cells) focus))
    /\ isSelecting (st w') = true.
Proof.
  induction cells as [|[row col] cells IH]; intros w anchor focus Hdrag Hsel.
  - exists w. cbn. auto.
  - destruct (dispatch_MouseMove_dragging w _ row col Hdrag Hsel)
      as (w1 & Hstep & Hsel1 & Hdrag1).
    destruct (IH w1 anchor (CellPos.mk row col) Hdrag1 Hsel1)
      as (w' & Hrun & Hsel' & Hdrag').
    exists w'. cbn [moves List.map run fst snd]. rewrite Hstep.
    split; [exact Hrun|]. split; [|exact Hdrag'].
    rewrite Hsel'. f_equal. f_equal.
    destruct cells as [|cell cells]; [reflexivity|].
    set (f := fun cell : Z * Z => CellPos.mk (fst cell) (snd cell)).
    change (List.last (f cell :: List.map f cells) (CellPos.mk row col)
            = List.last (f cell :: List.map f cells) focus).
    apply last_cons_default.
Qed.

Lemma run_moves_idle (cells : list (Z * Z)) : forall (w : World),
  isSelecting (st w) = false ->
  exists w',
    run (moves cells) w = Some w'
    /\ selection (st w') = selection (st w)
    /\ isSelecting (st w') = false
    /\ selectionChanges w' = selectionChanges w.
Proof.
  induction cells as [|[row col] cells IH]; intros w Hdrag.
  - exists w. cbn. auto.
  - destruct (dispatch_MouseMove_idle w row col Hdrag)
      as (w1 & Hstep & Hsel1 & Hdrag1 & Hrep1).
    destruct (IH w1 Hdrag1) as (w' & Hrun & Hsel' & Hdrag' & Hrep').
    exists w'. cbn [moves List.map run fst snd]. rewrite Hstep.
    split; [exact Hrun|]. repeat split; congruence.
Qed.

Lemma dispatch_MouseUp (w : World) :
  exists w',
    dispatch MouseUp w = Some w'
    /\ selection (st w') = selection (st w)
    /\ isSelecting (st w') = false
    /\ selectionChanges w' = selectionChanges w.
Proof.
  destruct_world w. step_handlers. eexists; split; [reflexivity|]. cbn. auto.
Qed.

(** X9. A drag keeps its anchor: after a press on [(row, col)] that
    returns, moves over [dragged], a release, and further moves over
    [after], the selection runs from the pressed cell to the last cell
    dragged over (the pressed cell itself if there was none); the moves
    after the release change and report nothing. *)
Theorem drag_selects_from_anchor_to_last_cell
    (w w1 : World) (row col : Z) (dragged after : list (Z * Z)) :
  dispatch (MouseDown row col) w = Some w1 ->
  exists w2 w3,
    run (moves dragged ++ [MouseUp]) w1 = Some w2
    /\ run (moves after) w2 = Some w3
    /\ selection (st w3)
       = Some (CellSelection.mk (CellPos.mk row col)
                 (List.last (List.map (fun cell => CellPos.mk (fst cell) (snd cell))
                                      dragged)
                            (CellPos.mk row col)))
    /\ selection (st w3) = selection (st w2)
    /\ selectionChanges w3 = selectionChanges w2.
Proof.
  intros Hpress.
  destruct (dispatch_MouseDown_selects w w1 row col Hpress) as [Hsel Hdrag].
  destruct (run_moves_dragging dragged w1 _ _ Hdrag Hsel)
    as (wa & Hrun & Hsela & _).
  destruct (dispatch_MouseUp wa) as (w2 & Hup & Hsel2 & Hdrag2 & _).
  destruct (run_moves_idle after w2 Hdrag2) as (w3 & Hrun3 & Hsel3 & _ & Hrep3).
  exists w2, w3. rewrite run_app, Hrun. cbn [run]. rewrite Hup.
  split; [reflexivity|]. split; [exact Hrun3|]. repeat split; congruence.
Qed.

Lemma drag_selects_from_anchor_to_last_cell_witness :
  let w0 := mount (Some [["a"; "b"]; ["c"; "10"]]%string) true true
                  {| clientWidth := 860; clientHeight := 625 |} in
  exists w1 w2 w3,
    dispatch (MouseDown 0 0) w0 = Some w1
    /\ run (moves [(0, 1); (1, 1)] ++ [MouseUp]) w1 = Some w2
    /\ run (moves [(0, 0)]) w2 = Some w3
    /\ selection (st w3)
       = Some (CellSelection.mk (CellPos.mk 0 0) (CellPos.mk 1 1)).
Proof.
  intros w0.
  destruct (dispatch (MouseDown 0 0) w0) as [w1|] eqn:Hpress;
    [|vm_compute in Hpress; discriminate].
  destruct (drag_selects_from_anchor_to_last_cell w0 w1 0 0
              [(0, 1); (1, 1)] [(0, 0)] Hpress)
    as (w2 & w3 & Hrun2 & Hrun3 & Hsel & _).
  exists w1, w2, w3. repeat split; assumption.
Defined.

(** ** Edit sessions, continued *)

(** X10. With no edit session open, Enter, Escape, any other key and a blur
    of the editor call no callback, write nothing into the grid and leave
    the selection and the idle state as they are. *)
Theorem commit_or_cancel_without_session_does_nothing (w : World) (e : Event) :
  editingCell (st w) = None ->
  (e = EditBlur \/ exists key, e = EditKeyDown key) ->
  exists w',
    dispatch e w = Some w'
    /\ sheet w' = sheet w
    /\ cellChanges w' = cellChanges w
    /\ selectionChanges w' = selectionChanges w
    /\ selection (st w') = selection (st w)
    /\ editingCell (st w') = None.
Proof.
  intros Hidle He. destruct_world w. cbn in Hidle. subst.
  destruct He as [-> | [key ->]]; step_handlers.
  - eexists; split; [reflexivity|]. cbn. auto.
  - destruct (String.eqb key "Enter"); [|destruct (String.eqb key "Escape")];
      cbn; (eexists; split; [reflexivity|]); cbn; auto.
Qed.

Lemma commit_or_cancel_without_session_does_nothing_witness :
  let w0 := mount (Some [["a"; "b"]; ["c"; "10"]]%string) true true
                  {| clientWidth := 860; clientHeight := 625 |} in
  exists w',
    dispatch (EditKeyDown "Enter") w0 = Some w'
    /\ sheet w' = sheet w0 /\ cellChanges w' = [].
Proof.
  intros w0.
  destruct (commit_or_cancel_without_session_does_nothing w0
              (EditKeyDown "Enter") eq_refl
              (or_intror (ex_intro _ "Enter"%string eq_refl)))
    as (w' & Hstep & Hsheet & Hcalls & _).
  exists w'. repeat split; assumption.
Defined.

(** X11. Typing in the editor only changes the draft: after any texts typed
    one after the other, the draft is the last one, and the grid, the edit
    session and the calls made to the callbacks are as before. *)
Theorem typing_changes_only_the_draft (w : World) (drafts : list string) :
  exists w',
    run (List.map EditChange drafts) w = Some w'
    /\ editValue (st w') = List.last drafts (editValue (st w))
    /\ editingCell (st w') = editingCell (st w)
    /\ selection (st w') = selection (st w)
    /\ sheet w' = sheet w
    /\ cellChanges w' = cellChanges w
    /\ selectionChanges w' = selectionChanges w.
Proof.
  revert w. induction drafts as [|v drafts IH]; intros w.
  - exists w. repeat split.
  - assert (Hstep : exists w1,
              dispatch (EditChange v) w = Some w1
              /\ editValue (st w1) = v
              /\ editingCell (st w1) = editingCell (st w)
              /\ selection (st w1) = selection (st w)
              /\ sheet w1 = sheet w
              /\ cellChanges w1 = cellChanges w
              /\ selectionChanges w1 = selectionChanges w).
    { destruct_world w. step_handlers.
      eexists; split; [reflexivity|]. cbn. repeat split. }
    destruct Hstep as (w1 & Hstep & Hv & Hcell & Hsel & Hsheet & Hc & Hs).
    destruct (IH w1) as (w' & Hrun & Hv' & Hcell' & Hsel' & Hsheet' & Hc' & Hs').
    exists w'. cbn [List.map run]. rewrite Hstep.
    split; [exact Hrun|]. split; [|repeat split; congruence].
    rewrite Hv', Hv. destruct drafts as [|s drafts]; [reflexivity|].
    change (List.last (s :: drafts) v
            = List.last (s :: drafts) (editValue (st w))).
    apply last_cons_default.
Qed.

Lemma cellValue_outside (data : Grid) (row col : Z) :
  ~ (0 <= row < totalRows data) -> cellValue data row col = EmptyString.
Proof.
  intros Hout. unfold cellValue, array_get, totalRows in *.
  destruct (row <? 0) eqn:E; [reflexivity|].
  rewrite lookup_ge_None_2 by lia. reflexivity.
Qed.

(** X12. A double click on a cell opens the edit session on that cell with
    the text of the cell as draft, the empty text for a cell that is not
    in the grid; nothing is committed, also when another session was open;
    and the cell is then the only one drawn as being edited. *)
Theorem double_click_opens_session_with_cell_text (w : World) (row col : Z) :
  exists w' cell,
    dispatch (DoubleClick row col) w = Some w'
    /\ editingCell (st w') = Some cell
    /\ val cell = CellPos.mk row col
    /\ editValue (st w') = cellValue (data w) row col
    /\ (~ (0 <= row < totalRows (data w)) -> editValue (st w') = EmptyString)
    /\ sheet w' = sheet w
    /\ cellChanges w' = cellChanges w
    /\ (forall r c, cd_isEditing (renderCell w' r c) = true
                    <-> (r = row /\ c = col)).
Proof.
  destruct_world w. step_handlers.
  eexists. eexists. split; [reflexivity|]. cbn.
  split; [reflexivity|]. split; [reflexivity|]. split; [reflexivity|].
  split; [apply cellValue_outside|]. split; [reflexivity|].
  split; [reflexivity|].
  intros r c. rewrite andb_true_iff, !Z.eqb_eq. intuition congruence.
Qed.

(** ** Column resize, continued *)

Lemma last_cons_shift {A} (l : list A) : forall a d,
  List.last (a :: l) d = List.last l a.
Proof.
  induction l as [|b l IH]; intros a d; [reflexivity|].
  change (List.last (b :: l) d = List.last (b :: l) a).
  rewrite !IH. reflexivity.
Qed.

Lemma dispatch_DocumentMouseMove_resizing (w : World) (c clientX : Z) :
  resizingColumn (st w) = Some c ->
  exists w',
    dispatch (DocumentMouseMove clientX) w = Some w'
    /\ val (columnWidths (st w'))
       = <[c := Z.max MIN_CELL_WIDTH
                  (resizeStartWidth (st w) + (clientX - resizeStartX (st w)))]>
           (val (columnWidths (st w)))
    /\ resizingColumn (st w') = Some c
    /\ resizeStartX (st w') = resizeStartX (st w)
    /\ resizeStartWidth (st w') = resizeStartWidth (st w).
Proof.
  intros Hres. destruct_world w. cbn in Hres. subst.
  step_handlers. eexists; split; [reflexivity|]. cbn. auto.
Qed.

Lemma dispatch_DocumentMouseMove_idle (w : World) (clientX : Z) :
  resizingColumn (st w) = None ->
  exists w',
    dispatch (DocumentMouseMove clientX) w = Some w'
    /\ columnWidths (st w') = columnWidths (st w)
    /\ resizingColumn (st w') = None.
Proof.
  intros Hres. destruct_world w. cbn in Hres. subst.
  step_handlers. eexists; split; [reflexivity|]. cbn. auto.
Qed.

Lemma run_DocumentMouseMove_resizing (xs : list Z) : forall (w : World) c,
  resizingColumn (st w) = Some c ->
  exists w',
    run (List.map DocumentMouseMove xs) w = Some w'
    /\ val (columnWidths (st w'))
       = match xs with
         | [] => val (columnWidths (st w))
         | x0 :: rest =>
             <[c := Z.max MIN_CELL_WIDTH
                      (resizeStartWidth (st w)
                       + (List.last rest x0 - resizeStartX (st w)))]>
               (val (columnWidths (st w)))
         end
    /\ resizingColumn (st w') = Some c
    /\ resizeStartX (st w') = resizeStartX (st w)
    /\ resizeStartWidth (st w') = resizeStartWidth (st w).
Proof.
  induction xs as [|x xs IH]; intros w c Hres.
  - exists w. cbn. auto.
  - destruct (dispatch_DocumentMouseMove_resizing w c x Hres)
      as (w1 & Hstep & Hw1 & Hres1 & Hx1 & Hsw1).
    destruct (IH w1 c Hres1) as (w' & Hrun & Hw' & Hres' & Hx' & Hsw').
    exists w'. cbn [List.map run]. rewrite Hstep.
    split; [exact Hrun|]. split; [|repeat split; congruence].
    rewrite Hw'. destruct xs as [|x' xs]; [exact Hw1|].
    rewrite Hw1, Hx1, Hsw1, insert_insert_eq.
    rewrite (last_cons_shift xs x' x). reflexivity.
Qed.

Lemma run_DocumentMouseMove_idle (xs : list Z) : forall (w : World),
  resizingColumn (st w) = None ->
  exists w',
    run (List.map DocumentMouseMove xs) w = Some w'
    /\ columnWidths (st w') = columnWidths (st w)
    /\ resizingColumn (st w') = None.
Proof.
  induction xs as [|x xs IH]; intros w Hres.
  - exists w. cbn. auto.
  - destruct (dispatch_DocumentMouseMove_idle w x Hres)
      as (w1 & Hstep & Hw1 & Hres1).
    destruct (IH w1 Hres1) as (w' & Hrun & Hw' & Hres').
    exists w'. cbn [List.map run]. rewrite Hstep.
    split; [exact Hrun|]. split; congruence.
Qed.

(** X13. A resize drag is measured from where it started: after a press on
    the handle of column [col] at [startX], pointer moves ending at
    [clientX], a release, and further pointer moves, the width table is the
    one before the drag with
    [max (MIN_CELL_WIDTH, width before + (clientX - startX))] for [col];
    the moves in between and the moves after the release leave no trace,
    and no other column changes. *)
Theorem resize_drag_is_relative_to_its_start
    (w : World) (col startX clientX : Z) (between after : list Z) :
  exists w',
    run (ColumnResizeStart col startX
           :: List.map DocumentMouseMove (between ++ [clientX])
           ++ DocumentMouseUp :: List.map DocumentMouseMove after) w
    = Some w'
    /\ val (columnWidths (st w'))
       = <[col := Z.max MIN_CELL_WIDTH
                    (colWidthOf (val (columnWidths (st w))) col
                     + (clientX - startX))]>
           (val (columnWidths (st w)))
    /\ resizingColumn (st w') = None.
Proof.
  assert (Hstart : exists w1,
            dispatch (ColumnResizeStart col startX) w = Some w1
            /\ columnWidths (st w1) = columnWidths (st w)
            /\ resizingColumn (st w1) = Some col
            /\ resizeStartX (st w1) = startX
            /\ resizeStartWidth (st w1)
               = colWidthOf (val (columnWidths (st w))) col).
  { destruct_world w. step_handlers.
    eexists; split; [reflexivity|]. cbn. auto. }
  destruct Hstart as (w1 & Hstep1 & Hcw1 & Hres1 & Hx1 & Hsw1).
  destruct (run_DocumentMouseMove_resizing (between ++ [clientX]) w1 col Hres1)
    as (w2 & Hrun2 & Hcw2 & Hres2 & _ & _).
  assert (Hup : exists w3,
            dispatch DocumentMouseUp w2 = Some w3
            /\ columnWidths (st w3) = columnWidths (st w2)
            /\ resizingColumn (st w3) = None).
  { clear. destruct_world w2. step_handlers.
    eexists; split; [reflexivity|]. cbn. auto. }
  destruct Hup as (w3 & Hstep3 & Hcw3 & Hres3).
  destruct (run_DocumentMouseMove_idle after w3 Hres3)
    as (w' & Hrun' & Hcw' & Hres').
  exists w'. cbn [run]. rewrite Hstep1, run_app, Hrun2. cbn [run].
  rewrite Hstep3. split; [exact Hrun'|]. split; [|exact Hres'].
  rewrite Hcw', Hcw3, Hcw2, Hcw1, Hx1, Hsw1.
  destruct (between ++ [clientX]) as [|x0 rest] eqn:E.
  - destruct between; discriminate.
  - replace (List.last rest x0) with clientX; [reflexivity|].
    transitivity (List.last (between ++ [clientX]) x0).
    + symmetry. apply List.last_last.
    + rewrite E. apply last_cons_shift.
Qed.

(** ** What can raise *)



(** * Properties of the [App] component *)

(** ** The session clock *)

Lemma padStart_two_digits (n : Z) :
  0 <= n < 60 ->
  String.length (String_padStart 2 "0" (Js.Number_toString n)) = 2%nat
  /\ parse_decimal (String_padStart 2 "0" (Js.Number_toString n)) = Some n.
Proof.
  intros Hn.
  assert (H : forall k : nat, (k < 60)%nat ->
            String.length (String_padStart 2 "0" (Js.Number_toString (Z.of_nat k)))
            = 2%nat
            /\ parse_decimal (String_padStart 2 "0"
                                (Js.Number_toString (Z.of_nat k)))
               = Some (Z.of_nat k)).
  { intros k Hk.
    do 60 (destruct k as [|k]; [vm_compute; split; reflexivity|]). lia. }
  specialize (H (Z.to_nat n) ltac:(lia)). rewrite Z2Nat.id in H by lia. exact H.
Qed.

(** X15. For a time left of [timeLeft >= 0] seconds the countdown of the
    warning reads the minutes, a colon and the seconds on exactly two
    digits: the decimal numeral of [timeLeft / 60], then [":"], then two
    characters that read as [timeLeft mod 60]. *)
Theorem countdown_shows_minutes_and_two_digit_seconds (timeLeft : Z) :
  0 <= timeLeft ->
  exists seconds : string,
    countdownText timeLeft
    = (Js.Number_toString (timeLeft / 60) ++ ":" ++ seconds)%string
    /\ String.length seconds = 2%nat
    /\ parse_decimal seconds = Some (timeLeft mod 60)
    /\ parse_decimal (Js.Number_toString (timeLeft / 60)) = Some (timeLeft / 60).
Proof.
  intros Hpos. unfold countdownText, Js.Math_floor_div.
  rewrite Z.rem_mod_nonneg by lia.
  pose proof (Z.mod_pos_bound timeLeft 60 ltac:(lia)) as Hmod.
  destruct (padStart_two_digits (timeLeft mod 60) Hmod) as [Hlen Hparse].
  eexists. split; [reflexivity|]. split; [exact Hlen|]. split; [exact Hparse|].
  apply parse_decimal_Number_toString.
Qed.

Lemma countdown_shows_minutes_and_two_digit_seconds_witness :
  exists seconds : string,
    countdownText 125 = ("2:" ++ seconds)%string
    /\ String.length seconds = 2%nat
    /\ parse_decimal seconds = Some 5.
Proof.
  destruct (countdown_shows_minutes_and_two_digit_seconds 125 ltac:(lia))
    as (seconds & Htext & Hlen & Hparse & _).
  exists seconds. split; [exact Htext|]. split; [exact Hlen | exact Hparse].
Defined.

Lemma div_div_60 (a : Z) : a / 60 / 60 = a / 3600.
Proof. rewrite Z.div_div by lia. reflexivity. Qed.

(** X16. [getTimeRemaining] never overstates the time left. With
    [remaining] the seconds left: from one hour on it shows
    ["<h>h <m>m restantes"] with [h = remaining / 3600] and
    [m = (remaining mod 3600) / 60]; from one minute on, below one hour,
    ["<m>m restantes"] with [m = remaining / 60]; below one minute, also
    when the time is up or past, ["<remaining>s restantes"] with the
    number as it is. Without a start time it shows nothing. *)
Theorem getTimeRemaining_rounds_down (start now : Z) :
  let remaining := remaining_at start now in
  (3600 <= remaining ->
   getTimeRemaining (Some start) now
   = (Js.Number_toString (remaining / 3600) ++ "h "
      ++ Js.Number_toString (remaining mod 3600 / 60) ++ "m restantes")%string
   /\ 3600 * (remaining / 3600) + 60 * (remaining mod 3600 / 60) <= remaining
      < 3600 * (remaining / 3600) + 60 * (remaining mod 3600 / 60) + 60)
  /\ (60 <= remaining < 3600 ->
      getTimeRemaining (Some start) now
      = (Js.Number_toString (remaining / 60) ++ "m restantes")%string
      /\ 60 * (remaining / 60) <= remaining < 60 * (remaining / 60) + 60)
  /\ (remaining < 60 ->
      getTimeRemaining (Some start) now
      = (Js.Number_toString remaining ++ "s restantes")%string)
  /\ getTimeRemaining None now = EmptyString.
Proof.
  intros remaining. unfold getTimeRemaining. fold (remaining_at start now).
  fold remaining. unfold Js.Math_floor_div. rewrite div_div_60.
  split; [|split; [|split; [|reflexivity]]].
  - intros Hr.
    assert (Hh : 1 <= remaining / 3600) by (apply Z.div_le_lower_bound; lia).
    assert (Hm : 0 <= remaining / 60) by (apply Z.div_pos; lia).
    destruct (remaining / 3600 >? 0) eqn:E; [|lia].
    rewrite Z.rem_mod_nonneg by lia.
    assert (Hmm : (remaining / 60) mod 60 = remaining mod 3600 / 60).
    { pose proof (Z.div_mod remaining 3600 ltac:(lia)).
      pose proof (Z.mod_pos_bound remaining 3600 ltac:(lia)).
      pose proof (Z.div_mod (remaining mod 3600) 60 ltac:(lia)).
      pose proof (Z.mod_pos_bound (remaining mod 3600) 60 ltac:(lia)).
      assert (0 <= remaining mod 3600 / 60 < 60).
      { split; [apply Z.div_pos; lia | apply Z.div_lt_upper_bound; lia]. }
      assert (Hd : 60 * (remaining / 3600) + remaining mod 3600 / 60
                   = remaining / 60).
      { apply (Z.div_unique_pos _ _ _ (remaining mod 3600 mod 60)); lia. }
      symmetry. apply (Z.mod_unique_pos _ _ (remaining / 3600)); lia. }
    rewrite Hmm. split; [reflexivity|].
    pose proof (Z.div_mod remaining 3600 ltac:(lia)).
    pose proof (Z.div_mod (remaining mod 3600) 60 ltac:(lia)).
    pose proof (Z.mod_pos_bound (remaining mod 3600) 60 ltac:(lia)).
    lia.
  - intros Hr.
    assert (Hh : remaining / 3600 = 0) by (apply Z.div_small; lia).
    assert (Hm : 1 <= remaining / 60) by (apply Z.div_le_lower_bound; lia).
    rewrite Hh. cbn [Z.gtb Z.compare].
    destruct (remaining / 60 >? 0) eqn:E; [|lia].
    split; [reflexivity|].
    pose proof (Z.div_mod remaining 60 ltac:(lia)).
    pose proof (Z.mod_pos_bound remaining 60 ltac:(lia)). lia.
  - intros Hr.
    assert (Hh : remaining / 3600 <= 0).
    { apply Z.lt_succ_r. apply Z.div_lt_upper_bound; lia. }
    assert (Hm : remaining / 60 <= 0).
    { apply Z.lt_succ_r. apply Z.div_lt_upper_bound; lia. }
    destruct (remaining / 3600 >? 0) eqn:E; [lia|].
    destruct (remaining / 60 >? 0) eqn:E'; [lia|]. reflexivity.
Qed.

Lemma getTimeRemaining_rounds_down_witness :
  getTimeRemaining (Some 0) 1000000 = "9h 43m restantes"%string
  /\ getTimeRemaining (Some 0) 35000000 = "16m restantes"%string
  /\ getTimeRemaining (Some 0) 36005000 = "-5s restantes"%string.
Proof.
  split; [|split].
  - destruct (getTimeRemaining_rounds_down 0 1000000) as ([Ht _] & _).
    + vm_compute. discriminate.
    + rewrite Ht. vm_compute. reflexivity.
  - destruct (getTimeRemaining_rounds_down 0 35000000) as (_ & [Ht _] & _).
    + vm_compute. split; [discriminate | reflexivity].
    + rewrite Ht. vm_compute. reflexivity.
  - destruct (getTimeRemaining_rounds_down 0 36005000) as (_ & _ & Ht & _).
    rewrite Ht; [vm_compute; reflexivity | vm_compute; reflexivity].
Defined.

Lemma remaining_at_antitone (start t1 t2 : Z) :
  t1 <= t2 -> remaining_at start t2 <= remaining_at start t1.
Proof.
  intros Ht. unfold remaining_at, Js.Math_floor_div.
  assert ((t1 - start) / 1000 <= (t2 - start) / 1000)
    by (apply Z.div_le_mono; lia).
  lia.
Qed.

Section SessionClock.

Context {Session ChatMessage : Type}.
Implicit Types a : AppState Session ChatMessage.

(** While the warning is shown the session has a start time, the time is
    within the warning window, and so is the countdown. *)
Lemma clock_step_warning_window (last : Z) (e : ClockEvent) a :
  (showTimeoutWarning a = true ->
   exists start, sessionStartTime a = Some start
                 /\ remaining_at start last <= WARNING_TIME
                 /\ 0 < timeLeft a <= WARNING_TIME) ->
  last <= event_time last e ->
  showTimeoutWarning (clock_step e a) = true ->
  exists start, sessionStartTime (clock_step e a) = Some start
                /\ remaining_at start (event_time last e) <= WARNING_TIME
                /\ 0 < timeLeft (clock_step e a) <= WARNING_TIME.
Proof.
  intros Hinv Hmono. destruct e as [now|now| |]; cbn [clock_step event_time] in *.
  - unfold tick. destruct (sessionStartTime a) as [start|] eqn:Hstart.
    + fold (remaining_at start now).
      destruct (remaining_at start now <=? 0) eqn:E0; [cbn; discriminate|].
      destruct (showTimeoutWarning a) eqn:Hshow.
      * rewrite andb_false_r. cbn. intros _.
        destruct (Hinv eq_refl) as (start' & [= <-] & Hwin & _).
        pose proof (remaining_at_antitone start last now Hmono).
        exists start. split; [reflexivity|]. lia.
      * rewrite andb_true_r.
        destruct (remaining_at start now <=? WARNING_TIME) eqn:E1; cbn.
        -- intros _. exists start. split; [reflexivity|]. lia.
        -- rewrite Hshow. discriminate.
    + intros Hshow. destruct (Hinv Hshow) as (start & Hs & _). discriminate.
  - cbn. discriminate.
  - cbn. discriminate.
  - cbn. discriminate.
Qed.

(** X17. Whatever the order of ticks, extensions, dismissals and a close,
    as long as the clock does not run backwards: whenever the warning is
    shown, the session has a start time and the countdown it shows is
    more than 0 and at most [WARNING_TIME] seconds. *)
Theorem warning_countdown_within_window
    (start0 : Z) (events : list ClockEvent) a0 :
  showTimeoutWarning a0 = false ->
  clock_monotone start0 events ->
  showTimeoutWarning (clock_run events a0) = true ->
  0 < timeLeft (clock_run events a0) <= WARNING_TIME
  /\ sessionStartTime (clock_run events a0) <> None.
Proof.
  intros Hhidden Hmono Hshown.
  assert (Hgen : forall events last a,
            (showTimeoutWarning a = true ->
             exists start, sessionStartTime a = Some start
                           /\ remaining_at start last <= WARNING_TIME
                           /\ 0 < timeLeft a <= WARNING_TIME) ->
            clock_monotone last events ->
            showTimeoutWarning (clock_run events a) = true ->
            exists start last',
              sessionStartTime (clock_run events a) = Some start
              /\ remaining_at start last' <= WARNING_TIME
              /\ 0 < timeLeft (clock_run events a) <= WARNING_TIME).
  { clear. induction events as [|e events IH]; intros last a Hinv Hmono Hshown.
    - cbn in *. destruct (Hinv Hshown) as (start & H). exists start, last. exact H.
    - cbn [clock_run fold_left] in *. destruct Hmono as [Hle Hrest].
      apply (IH (event_time last e) (clock_step e a)); [|exact Hrest|exact Hshown].
      apply clock_step_warning_window; assumption. }
  destruct (Hgen events start0 a0) as (start & last' & Hs & _ & Ht);
    [rewrite Hhidden; discriminate | exact Hmono | exact Hshown |].
  split; [exact Ht | congruence].
Qed.

(** X18. Dismissing the warning hides it for one tick at most: with more
    than 0 and at most [WARNING_TIME] seconds left, the first tick after
    the dismissal shows it again, with the time then left. *)
Theorem dismissed_warning_returns_at_next_tick (start now : Z) a :
  sessionStartTime a = Some start ->
  0 < remaining_at start now <= WARNING_TIME ->
  showTimeoutWarning (dismissWarning a) = false
  /\ showTimeoutWarning (tick now (dismissWarning a)) = true
  /\ timeLeft (tick now (dismissWarning a)) = remaining_at start now
  /\ session (tick now (dismissWarning a)) = session a.
Proof.
  intros Hstart Hwin. unfold tick, dismissWarning. cbn. rewrite Hstart.
  fold (remaining_at start now).
  destruct (remaining_at start now <=? 0) eqn:E0; [lia|].
  destruct (remaining_at start now <=? WARNING_TIME) eqn:E1; [|lia].
  cbn. auto.
Qed.

(** X19. Extending the session at [now] grants the whole timeout again: a
    tick within the next [SESSION_TIMEOUT - WARNING_TIME] seconds neither
    warns nor touches the session, and the first tick
    [SESSION_TIMEOUT] seconds or more after [now] closes the session,
    empties the messages and sets the expiry error. *)
Theorem extension_grants_full_timeout (now later : Z) a :
  (now <= later < now + (SESSION_TIMEOUT - WARNING_TIME) * 1000 ->
   tick later (handleExtendSession now a) = handleExtendSession now a)
  /\ (now + SESSION_TIMEOUT * 1000 <= later ->
      session (tick later (handleExtendSession now a)) = None
      /\ messages (tick later (handleExtendSession now a)) = []
      /\ sessionStartTime (tick later (handleExtendSession now a)) = None
      /\ showTimeoutWarning (tick later (handleExtendSession now a)) = false
      /\ error (tick later (handleExtendSession now a)) <> None).
Proof.
  unfold tick, handleExtendSession. cbn [sessionStartTime showTimeoutWarning].
  fold (remaining_at now later). unfold remaining_at, Js.Math_floor_div,
    SESSION_TIMEOUT, WARNING_TIME. split.
  - intros Hl.
    assert (0 <= (later - now) / 1000) by (apply Z.div_pos; lia).
    assert ((later - now) / 1000 < 35700)
      by (apply Z.div_lt_upper_bound; lia).
    destruct (36000 - (later - now) / 1000 <=? 0) eqn:E0; [lia|].
    destruct (36000 - (later - now) / 1000 <=? 300) eqn:E1; [lia|].
    reflexivity.
  - intros Hl.
    assert (36000 <= (later - now) / 1000)
      by (apply Z.div_le_lower_bound; lia).
    destruct (36000 - (later - now) / 1000 <=? 0) eqn:E0; [|lia].
    cbn. repeat split. discriminate.
Qed.

End SessionClock.

Lemma warning_countdown_within_window_witness :
  let a0 : AppState unit unit :=
    {| session := Some tt; messages := []; error := None;
       sessionStartTime := Some 0; showTimeoutWarning := false;
       timeLeft := 0 |} in
  let events := [Tick 1000; Tick 35800000; DismissWarning; Tick 35801000] in
  0 < timeLeft (clock_run events a0) <= WARNING_TIME.
Proof.
  intros a0 events.
  apply (warning_countdown_within_window 0 events a0).
  - reflexivity.
  - cbn. lia.
  - vm_compute. reflexivity.
Defined.

Lemma dismissed_warning_returns_at_next_tick_witness :
  let a : AppState unit unit :=
    {| session := Some tt; messages := []; error := None;
       sessionStartTime := Some 0; showTimeoutWarning := true;
       timeLeft := 200 |} in
  showTimeoutWarning (tick 35801000 (dismissWarning a)) = true
  /\ timeLeft (tick 35801000 (dismissWarning a)) = 199.
Proof.
  intros a.
  destruct (dismissed_warning_returns_at_next_tick 0 35801000 a eq_refl)
    as (_ & Hshow & Htime & _).
  - vm_compute. split; [reflexivity | discriminate].
  - split; [exact Hshow | exact Htime].
Defined.

Lemma extension_grants_full_timeout_witness :
  let a : AppState unit unit :=
    {| session := Some tt; messages := []; error := None;
       sessionStartTime := Some 0; showTimeoutWarning := true;
       timeLeft := 200 |} in
  tick 40000000 (handleExtendSession 35801000 a) = handleExtendSession 35801000 a
  /\ session (tick 71801000 (handleExtendSession 35801000 a)) = None.
Proof.
  intros a.
  destruct (extension_grants_full_timeout 35801000 40000000 a) as [Hquiet _].
  destruct (extension_grants_full_timeout 35801000 71801000 a) as [_ Hexpire].
  split.
  - apply Hquiet. vm_compute. split; [discriminate | reflexivity].
  - apply Hexpire. vm_compute. discriminate.
Defined.

(** ** Escaping *)

Section Escaping.
Local Open Scope string_scope.

Lemma append_assoc_string (s t u : string) : (s ++ t) ++ u = s ++ (t ++ u).
Proof.
  induction s as [|a s IH]; [reflexivity|].
  change (String a ((s ++ t) ++ u) = String a (s ++ (t ++ u))).
  f_equal. exact IH.
Qed.

Lemma String_replaceAll_app (c : ascii) (by_ s t : string) :
  String_replaceAll c by_ (s ++ t)
  = String_replaceAll c by_ s ++ String_replaceAll c by_ t.
Proof.
  induction s as [|a s IH]; [reflexivity|].
  change (String_replaceAll c by_ (String a (s ++ t))
          = String_replaceAll c by_ (String a s) ++ String_replaceAll c by_ t).
  cbn [String_replaceAll]. rewrite IH. destruct (Ascii.eqb a c).
  - symmetry. apply append_assoc_string.
  - reflexivity.
Qed.

Lemma escapeHtml_app (s t : string) :
  escapeHtml (s ++ t) = escapeHtml s ++ escapeHtml t.
Proof. unfold escapeHtml. rewrite !String_replaceAll_app. reflexivity. Qed.

Lemma escapeHtml_cons (a : ascii) (s : string) :
  escapeHtml (String a s) = escapeHtml (String a "") ++ escapeHtml s.
Proof. apply (escapeHtml_app (String a "") s). Qed.

Lemma string_forallb_app (f : ascii -> bool) (s t : string) :
  string_forallb f (s ++ t) = string_forallb f s && string_forallb f t.
Proof.
  induction s as [|a s IH]; [reflexivity|].
  change (f a && string_forallb f (s ++ t)
          = f a && string_forallb f s && string_forallb f t).
  rewrite IH, andb_assoc. reflexivity.
Qed.

Lemma escapeHtml_char (a : ascii) (rest : string) :
  string_forallb (fun c => negb (html_special c)) (escapeHtml (String a "")) = true
  /\ unescapeHtml (escapeHtml (String a "") ++ rest) = String a (unescapeHtml rest).
Proof.
  destruct a as [[] [] [] [] [] [] [] []]; split; reflexivity.
Qed.

(** X20. [escapeHtml] leaves none of the characters [<], [>], double quote
    and single quote in its result, and loses nothing: reading the five
    entities back gives the text that was escaped, so an ampersand of the
    text is never taken for the start of an entity, and two texts are
    never escaped to the same result. *)
Theorem escapeHtml_safe_and_reversible (str : string) :
  string_forallb (fun c => negb (html_special c)) (escapeHtml str) = true
  /\ unescapeHtml (escapeHtml str) = str
  /\ (forall str', escapeHtml str' = escapeHtml str -> str' = str).
Proof.
  assert (Hboth : forall s,
            string_forallb (fun c => negb (html_special c)) (escapeHtml s) = true
            /\ unescapeHtml (escapeHtml s) = s).
  { induction s as [|a s [IH1 IH2]]; [split; reflexivity|].
    rewrite escapeHtml_cons.
    destruct (escapeHtml_char a (escapeHtml s)) as [Hsafe Hback].
    split.
    - rewrite string_forallb_app, Hsafe, IH1. reflexivity.
    - rewrite Hback, IH2. reflexivity. }
  destruct (Hboth str) as [Hsafe Hback].
  split; [exact Hsafe|]. split; [exact Hback|].
  intros str' Heq. destruct (Hboth str') as [_ Hback'].
  rewrite <- Hback', Heq. exact Hback.
Qed.

Example escapeHtml_of_markup :
  escapeHtml "If a < b & c Then" = "If a &lt; b &amp; c Then".
Proof. reflexivity. Qed.

(** ** Lines of the code *)

Lemma String_split_lines_nonempty (s : string) : String_split_lines s <> [].
Proof.
  induction s as [|a s IH]; cbn; [discriminate|].
  destruct (Ascii.eqb a "010"); [discriminate|].
  destruct (String_split_lines s); [contradiction | discriminate].
Qed.

Lemma concat_cons_nonempty (sep x : string) (l : list string) :
  l <> [] -> String.concat sep (x :: l) = x ++ sep ++ String.concat sep l.
Proof. destruct l; [contradiction | reflexivity]. Qed.

(** X21. The gutter of the VBA editor numbers the lines of the code: it
    holds 1, 2, ..., n where n is the number of line feeds plus one (so at
    least 1, also for an empty text), the lines hold no line feed, and
    joined by line feeds they are the code. *)
Theorem gutter_numbers_the_lines (currentCode : string) :
  gutter currentCode
  = List.map Z.of_nat (seq 1 (S (count_char "010" currentCode)))
  /\ Forall (fun line => count_char "010" line = 0%nat)
            (String_split_lines currentCode)
  /\ String.concat (String "010" "") (String_split_lines currentCode)
     = currentCode.
Proof.
  assert (Hlen : length (String_split_lines currentCode)
                 = S (count_char "010" currentCode)).
  { induction currentCode as [|a s IH]; [reflexivity|].
    cbn [String_split_lines count_char]. destruct (Ascii.eqb a "010"); cbn.
    - rewrite IH. reflexivity.
    - destruct (String_split_lines s) eqn:E; [discriminate|]. exact IH. }
  split; [|split].
  - unfold gutter. rewrite Hlen. rewrite <- seq_shift, List.map_map.
    apply List.map_ext. intros i. lia.
  - clear Hlen. induction currentCode as [|a s IH]; cbn [String_split_lines].
    + constructor; [reflexivity | constructor].
    + destruct (Ascii.eqb a "010") eqn:E.
      * constructor; [reflexivity | exact IH].
      * pose proof (String_split_lines_nonempty s) as Hnon.
        destruct (String_split_lines s) as [|line lines]; [contradiction|].
        inversion IH as [|? ? Hline Hlines]; subst.
        constructor; [|exact Hlines].
        cbn [count_char]. rewrite E. exact Hline.
  - clear Hlen. induction currentCode as [|a s IH]; [reflexivity|].
    cbn [String_split_lines]. destruct (Ascii.eqb_spec a "010") as [->|Hne].
    + rewrite concat_cons_nonempty by apply String_split_lines_nonempty.
      rewrite IH. reflexivity.
    + pose proof (String_split_lines_nonempty s) as Hnon.
      destruct (String_split_lines s) as [|line lines] eqn:E; [contradiction|].
      rewrite <- IH. destruct lines; reflexivity.
Qed.

End Escaping.

(** ** Debounced cell updates *)

Section CellKeys.
Local Open Scope string_scope.

Lemma hyphen_free_app (s t : string) :
  hyphen_free (s ++ t) = hyphen_free s && hyphen_free t.
Proof. apply string_forallb_app. Qed.

Lemma hyphen_free_string_of_uint (d : Decimal.uint) :
  hyphen_free (NilEmpty.string_of_uint d) = true.
Proof. induction d; cbn; auto. Qed.

Lemma hyphen_free_Number_toString (n : Z) :
  0 <= n -> hyphen_free (Js.Number_toString n) = true.
Proof.
  intros Hn. unfold Js.Number_toString, NilZero.string_of_int.
  destruct n as [|p|p]; [reflexivity | | lia].
  cbn [Z.to_int]. unfold NilZero.string_of_uint.
  destruct (Pos.to_uint p) eqn:E; try reflexivity;
    rewrite <- E; apply hyphen_free_string_of_uint.
Qed.

Lemma hyphen_in_the_middle (s t : string) :
  hyphen_free (s ++ String "-" t) = false.
Proof. rewrite hyphen_free_app. cbn. apply andb_false_r. Qed.

(** The text before the last hyphen and the text after it are read off
    the whole. *)
Lemma split_at_last_hyphen (s s' t t' : string) :
  hyphen_free t = true -> hyphen_free t' = true ->
  s ++ String "-" t = s' ++ String "-" t' ->
  s = s' /\ t = t'.
Proof.
  intros Ht Ht'. revert s'.
  induction s as [|a s IH]; intros [|a' s'] Heq; cbn in Heq.
  - injection Heq as Heq. split; [reflexivity | exact Heq].
  - injection Heq as _ Heq. rewrite Heq, hyphen_in_the_middle in Ht.
    discriminate.
  - injection Heq as _ Heq. rewrite <- Heq, hyphen_in_the_middle in Ht'.
    discriminate.
  - injection Heq as -> Heq. destruct (IH _ Heq) as [-> ->].
    split; reflexivity.
Qed.

Lemma Number_toString_inj (n m : Z) :
  Js.Number_toString n = Js.Number_toString m -> n = m.
Proof.
  intros Heq.
  pose proof (parse_decimal_Number_toString n) as Hn.
  rewrite Heq, parse_decimal_Number_toString in Hn. congruence.
Qed.

Lemma cellKey_inj (sheet1 sheet2 : string) (row1 col1 row2 col2 : Z) :
  0 <= row1 -> 0 <= col1 -> 0 <= row2 -> 0 <= col2 ->
  cellKey sheet1 row1 col1 = cellKey sheet2 row2 col2 ->
  sheet1 = sheet2 /\ row1 = row2 /\ col1 = col2.
Proof.
  intros Hr1 Hc1 Hr2 Hc2. unfold cellKey. intros Heq.
  assert (Hassoc : forall s r c : string,
            s ++ "-" ++ r ++ "-" ++ c = (s ++ String "-" r) ++ String "-" c).
  { intros s r c. rewrite append_assoc_string. reflexivity. }
  rewrite !Hassoc in Heq.
  apply split_at_last_hyphen in Heq;
    [| apply hyphen_free_Number_toString; assumption ..].
  destruct Heq as [Heq Hcol].
  apply split_at_last_hyphen in Heq;
    [| apply hyphen_free_Number_toString; assumption ..].
  destruct Heq as [Hsheet Hrow].
  split; [exact Hsheet|].
  split; apply Number_toString_inj; assumption.
Qed.

(** X22. The key under which [handleCellChange] records the timer of a
    cell names the cell: two cells with non-negative indices have the same
    key only if they are the same cell of the same sheet, whatever the
    names of the sheets (hyphens included). *)
Theorem cellKey_names_one_cell (sheet1 sheet2 : string) (row1 col1 row2 col2 : Z) :
  0 <= row1 -> 0 <= col1 -> 0 <= row2 -> 0 <= col2 ->
  cellKey sheet1 row1 col1 = cellKey sheet2 row2 col2 ->
  sheet1 = sheet2 /\ row1 = row2 /\ col1 = col2.
Proof. apply cellKey_inj. Qed.

Lemma cellKey_names_one_cell_witness :
  cellKey "a-1" 2 3 = "a-1-2-3"
  /\ "a-1" = "a-1" /\ 2 = 2 /\ 3 = 3.
Proof.
  split; [reflexivity|].
  apply (cellKey_names_one_cell "a-1" "a-1" 2 3 2 3); [lia .. | reflexivity].
Defined.

End CellKeys.

Section Debouncing.

Lemma debounce_run_app (events tail : list DebounceEvent) (d : Debounce) :
  debounce_run (events ++ tail) d = debounce_run tail (debounce_run events d).
Proof. apply fold_left_app. Qed.

Lemma debounce_initial_coherent : debounce_coherent debounce_initial.
Proof.
  repeat split.
  - cbn in H. rewrite lookup_empty in H. discriminate.
  - cbn in H. rewrite lookup_empty in H. discriminate.
  - cbn in H. rewrite lookup_empty in H. discriminate.
  - intros key id H. cbn in H. rewrite lookup_empty in H. discriminate.
  - intros k1 k2 id H. cbn in H. rewrite lookup_empty in H. discriminate.
Qed.

Lemma scheduleUpdate_timers (activeSheet : string) (row col : Z) (value : string)
    (d : Debounce) (id : nat) (key : string) (body : CellUpdate) :
  timers (scheduleUpdate activeSheet row col value d) !! id = Some (key, body) ->
  (id = nextTimer d
   /\ key = cellKey activeSheet row col
   /\ body = {| sheet_name := activeSheet; cu_row := row; cu_col := col;
                cu_value := value |})
  \/ (id <> nextTimer d
      /\ timers d !! id = Some (key, body)
      /\ updateTimeouts d !! cellKey activeSheet row col <> Some id).
Proof.
  unfold scheduleUpdate. cbn [timers]. intros Hl.
  apply lookup_insert_Some in Hl as [[<- Heq] | [Hne Hl]].
  - left. injection Heq as <- <-. repeat split.
  - right. split; [congruence|].
    destruct (updateTimeouts d !! cellKey activeSheet row col) as [id0|].
    + apply lookup_delete_Some in Hl as [Hne0 Hl]. split; [exact Hl|congruence].
    + split; [exact Hl | discriminate].
Qed.

Lemma scheduleUpdate_coherent (activeSheet : string) (row col : Z)
    (value : string) (d : Debounce) :
  debounce_coherent d ->
  debounce_coherent (scheduleUpdate activeSheet row col value d).
Proof.
  intros (Hrec & Hfresh & Hdist). split; [|split].
  - intros id key body Hl.
    apply scheduleUpdate_timers in Hl as [(-> & -> & ->) | (Hne & Hl & Hnot)].
    + cbn. split; [|split; [reflexivity | lia]].
      apply lookup_insert_Some. left. split; reflexivity.
    + destruct (Hrec _ _ _ Hl) as (Hut & Hkey & Hlt). cbn.
      split; [|split; [exact Hkey | lia]].
      apply lookup_insert_Some. right. split; [|exact Hut].
      intros Heq. apply Hnot. rewrite Heq. exact Hut.
  - intros key id Hl. cbn in Hl |- *.
    apply lookup_insert_Some in Hl as [[_ <-] | [_ Hl]]; [lia|].
    apply Hfresh in Hl. lia.
  - intros key1 key2 id H1 H2. cbn in H1, H2.
    apply lookup_insert_Some in H1 as [[<- <-] | [Hne1 H1]];
      apply lookup_insert_Some in H2 as [[<- Hid] | [Hne2 H2]].
    + reflexivity.
    + apply Hfresh in H2. lia.
    + apply Hfresh in H1. lia.
    + exact (Hdist _ _ _ H1 H2).
Qed.

Lemma debounce_step_coherent (e : DebounceEvent) (d : Debounce) :
  debounce_coherent d -> debounce_coherent (debounce_step e d).
Proof.
  destruct e as [activeSheet row col value | id | key ok]; cbn [debounce_step].
  - apply scheduleUpdate_coherent.
  - intros (Hrec & Hfresh & Hdist). unfold timerFires.
    destruct (timers d !! id) as [[key body]|] eqn:E;
      [|split; [|split]; assumption].
    split; [|split; assumption].
    intros id' key' body' Hl. cbn in Hl |- *.
    apply lookup_delete_Some in Hl as [_ Hl]. exact (Hrec _ _ _ Hl).
  - intros H. exact H.
Qed.

Lemma debounce_run_coherent (events : list DebounceEvent) (d : Debounce) :
  debounce_coherent d -> debounce_coherent (debounce_run events d).
Proof.
  revert d. induction events as [|e events IH]; intros d H; [exact H|].
  apply IH, debounce_step_coherent, H.
Qed.

Lemma same_cell_true (activeSheet : string) (row col : Z) (body : CellUpdate) :
  same_cell activeSheet row col body = true
  <-> sheet_name body = activeSheet /\ cu_row body = row /\ cu_col body = col.
Proof.
  unfold same_cell. rewrite !andb_true_iff, String.eqb_eq, !Z.eqb_eq. tauto.
Qed.

Lemma coherent_one_timer (d : Debounce) (id1 id2 : nat) (key1 key2 : string)
    (body1 body2 : CellUpdate) :
  debounce_coherent d ->
  timers d !! id1 = Some (key1, body1) ->
  timers d !! id2 = Some (key2, body2) ->
  sheet_name body1 = sheet_name body2 ->
  cu_row body1 = cu_row body2 ->
  cu_col body1 = cu_col body2 ->
  id1 = id2.
Proof.
  intros (Hrec & _ & _) H1 H2 Hs Hr Hc.
  destruct (Hrec _ _ _ H1) as (Hut1 & Hk1 & _).
  destruct (Hrec _ _ _ H2) as (Hut2 & Hk2 & _).
  rewrite Hs, Hr, Hc in Hk1. rewrite <- Hk2 in Hk1. subst key1. congruence.
Qed.

(** X23. Whatever cells were changed, whichever timers fired and whichever
    responses arrived since the application started, at most one update of
    a cell is waiting to be sent: two timers that are set and send an
    update of the same cell of the same sheet are the same timer. *)
Theorem at_most_one_timer_per_cell (events : list DebounceEvent)
    (id1 id2 : nat) (key1 key2 : string) (body1 body2 : CellUpdate) :
  timers (debounce_run events debounce_initial) !! id1 = Some (key1, body1) ->
  timers (debounce_run events debounce_initial) !! id2 = Some (key2, body2) ->
  sheet_name body1 = sheet_name body2 ->
  cu_row body1 = cu_row body2 ->
  cu_col body1 = cu_col body2 ->
  id1 = id2 /\ body1 = body2.
Proof.
  intros H1 H2 Hs Hr Hc.
  assert (id1 = id2) as ->.
  { eapply coherent_one_timer; eauto.
    apply debounce_run_coherent, debounce_initial_coherent. }
  split; congruence.
Qed.

(** An event that is no change of the cell sets no timer for it, and sends
    at most the update of one timer, which it removes. *)
Lemma debounce_step_other (activeSheet : string) (row col : Z)
    (e : DebounceEvent) (d : Debounce) :
  changes_cell activeSheet row col e = false ->
  (forall id key body,
      timers (debounce_step e d) !! id = Some (key, body) ->
      same_cell activeSheet row col body = true ->
      timers d !! id = Some (key, body))
  /\ (requests (debounce_step e d) = requests d
      \/ exists id key body,
           timers d !! id = Some (key, body)
           /\ requests (debounce_step e d) = requests d ++ [body]
           /\ timers (debounce_step e d) = delete id (timers d)).
Proof.
  intros He. destruct e as [activeSheet' row' col' value | id | key ok];
    cbn [debounce_step].
  - split; [|left; reflexivity].
    intros id key body Hl Hsame.
    apply scheduleUpdate_timers in Hl as [(_ & _ & ->) | (_ & Hl & _)];
      [|exact Hl].
    unfold same_cell in Hsame. cbn in Hsame, He. congruence.
  - unfold timerFires. destruct (timers d !! id) as [[key body]|] eqn:E.
    + split.
      * intros id' key' body' Hl _. cbn in Hl.
        apply lookup_delete_Some in Hl as [_ Hl]. exact Hl.
      * right. exists id, key, body. repeat split. exact E.
    + split; [intros; assumption | left; reflexivity].
  - split; [intros; assumption | left; reflexivity].
Qed.

Lemma debounce_run_no_timer (activeSheet : string) (row col : Z)
    (tail : list DebounceEvent) (d : Debounce) :
  List.Forall (fun e => changes_cell activeSheet row col e = false) tail ->
  no_timer_of_cell activeSheet row col d ->
  exists new,
    requests (debounce_run tail d) = requests d ++ new
    /\ List.filter (same_cell activeSheet row col) new = [].
Proof.
  revert d. induction tail as [|e tail IH]; intros d Htail Hno.
  - exists []. split; [symmetry; apply app_nil_r | reflexivity].
  - inversion Htail as [|? ? He Htail']; subst.
    destruct (debounce_step_other activeSheet row col e d He) as [Hsub Hreq].
    assert (Hno' : no_timer_of_cell activeSheet row col (debounce_step e d)).
    { intros id key body Hl.
      destruct (same_cell activeSheet row col body) eqn:Hsame; [|reflexivity].
      rewrite <- Hsame. exact (Hno _ _ _ (Hsub _ _ _ Hl Hsame)). }
    destruct (IH _ Htail' Hno') as (new & Hnew & Hfilter).
    change (debounce_run (e :: tail) d)
      with (debounce_run tail (debounce_step e d)).
    destruct Hreq as [Hreq | (id & key & body & Hl & Hreq & _)].
    + exists new. rewrite Hnew, Hreq. split; [reflexivity | exact Hfilter].
    + exists (body :: new). rewrite Hnew, Hreq, <- app_assoc.
      split; [reflexivity|]. cbn [List.filter].
      rewrite (Hno _ _ _ Hl). exact Hfilter.
Qed.

Lemma debounce_run_only_timer (activeSheet : string) (row col : Z)
    (id0 : nat) (body0 : CellUpdate) (tail : list DebounceEvent) (d : Debounce) :
  List.Forall (fun e => changes_cell activeSheet row col e = false) tail ->
  only_timer_of_cell activeSheet row col id0 body0 d ->
  exists new,
    requests (debounce_run tail d) = requests d ++ new
    /\ (List.filter (same_cell activeSheet row col) new = []
        \/ List.filter (same_cell activeSheet row col) new = [body0]).
Proof.
  revert d. induction tail as [|e tail IH]; intros d Htail Honly.
  - exists []. split; [symmetry; apply app_nil_r | left; reflexivity].
  - inversion Htail as [|? ? He Htail']; subst.
    destruct (debounce_step_other activeSheet row col e d He) as [Hsub Hreq].
    assert (Honly' : only_timer_of_cell activeSheet row col id0 body0
                       (debounce_step e d)).
    { intros id key body Hl Hsame.
      exact (Honly _ _ _ (Hsub _ _ _ Hl Hsame) Hsame). }
    change (debounce_run (e :: tail) d)
      with (debounce_run tail (debounce_step e d)).
    destruct Hreq as [Hreq | (id & key & body & Hl & Hreq & Htimers)].
    + destruct (IH _ Htail' Honly') as (new & Hnew & Hfilter).
      exists new. rewrite Hnew, Hreq. split; [reflexivity | exact Hfilter].
    + destruct (same_cell activeSheet row col body) eqn:Hsame.
      * destruct (Honly _ _ _ Hl Hsame) as [-> ->].
        assert (Hno : no_timer_of_cell activeSheet row col (debounce_step e d)).
        { intros id key' body Hl'.
          destruct (same_cell activeSheet row col body) eqn:Hsame';
            [|reflexivity].
          destruct (Honly' _ _ _ Hl' Hsame') as [-> _].
          rewrite Htimers in Hl'.
          apply lookup_delete_Some in Hl' as [Hne _]. contradiction. }
        destruct (debounce_run_no_timer _ _ _ _ _ Htail' Hno)
          as (new & Hnew & Hfilter).
        exists (body0 :: new). rewrite Hnew, Hreq, <- app_assoc.
        split; [reflexivity|]. right. cbn [List.filter].
        rewrite Hsame, Hfilter. reflexivity.
      * destruct (IH _ Htail' Honly') as (new & Hnew & Hfilter).
        exists (body :: new). rewrite Hnew, Hreq, <- app_assoc.
        split; [reflexivity|]. cbn [List.filter]. rewrite Hsame. exact Hfilter.
Qed.

(** X24. Debouncing: after a change of a cell, and until that cell is
    changed again, at most one update of the cell is sent, and it carries
    the value of that last change: the timers set by earlier changes of
    the cell were cleared, whatever happened before, and whichever timers
    fire, responses arrive and other cells are changed afterwards. *)
Theorem only_last_value_of_a_cell_is_sent (events tail : list DebounceEvent)
    (activeSheet : string) (row col : Z) (value : string) :
  List.Forall (fun e => changes_cell activeSheet row col e = false) tail ->
  exists new,
    requests (debounce_run
                (events ++ CellChanged activeSheet row col value :: tail)
                debounce_initial)
    = requests (debounce_run events debounce_initial) ++ new
    /\ (List.filter (same_cell activeSheet row col) new = []
        \/ List.filter (same_cell activeSheet row col) new
           = [{| sheet_name := activeSheet; cu_row := row; cu_col := col;
                 cu_value := value |}]).
Proof.
  intros Htail. rewrite debounce_run_app.
  set (d := debounce_run events debounce_initial).
  assert (Hd : debounce_coherent d)
    by apply debounce_run_coherent, debounce_initial_coherent.
  change (debounce_run (CellChanged activeSheet row col value :: tail) d)
    with (debounce_run tail (scheduleUpdate activeSheet row col value d)).
  change (requests d)
    with (requests (scheduleUpdate activeSheet row col value d)).
  apply (debounce_run_only_timer activeSheet row col (nextTimer d));
    [exact Htail|].
  intros id key body Hl Hsame.
  apply scheduleUpdate_timers in Hl as [(-> & _ & ->) | (_ & Hl & Hnot)].
  - split; reflexivity.
  - exfalso. apply Hnot. destruct Hd as (Hrec & _ & _).
    destruct (Hrec _ _ _ Hl) as (Hut & Hkey & _).
    apply same_cell_true in Hsame as (Hs & Hr & Hc).
    rewrite Hs, Hr, Hc in Hkey. rewrite <- Hkey. exact Hut.
Qed.

(** X25. A change of one cell leaves the update of every other cell
    waiting: a timer that is set for a cell (indices not negative) is still
    set, with the same update, after [handleCellChange] ran for a
    different cell or a different sheet. *)
Theorem change_keeps_timers_of_other_cells (events : list DebounceEvent)
    (activeSheet : string) (row col : Z) (value : string)
    (id : nat) (key : string) (body : CellUpdate) :
  timers (debounce_run events debounce_initial) !! id = Some (key, body) ->
  0 <= row -> 0 <= col -> 0 <= cu_row body -> 0 <= cu_col body ->
  same_cell activeSheet row col body = false ->
  timers (scheduleUpdate activeSheet row col value
            (debounce_run events debounce_initial)) !! id
  = Some (key, body).
Proof.
  set (d := debounce_run events debounce_initial).
  assert (Hd : debounce_coherent d)
    by apply debounce_run_coherent, debounce_initial_coherent.
  intros Hl Hrow Hcol Hrow' Hcol' Hother.
  destruct Hd as (Hrec & Hfresh & Hdist).
  destruct (Hrec _ _ _ Hl) as (Hut & Hkey & Hlt).
  assert (Hne : key <> cellKey activeSheet row col).
  { intros Heq. rewrite Hkey in Heq.
    apply cellKey_inj in Heq; [|assumption ..].
    apply not_true_iff_false in Hother. apply Hother, same_cell_true.
    exact Heq. }
  unfold scheduleUpdate. cbn [timers].
  apply lookup_insert_Some. right. split; [lia|].
  destruct (updateTimeouts d !! cellKey activeSheet row col) as [id0|] eqn:E;
    [|exact Hl].
  apply lookup_delete_Some. split; [|exact Hl].
  intros ->. apply Hne. exact (Hdist _ _ _ Hut E).
Qed.

Lemma debounce_step_keeps_pending (key : string) (e : DebounceEvent)
    (d : Debounce) :
  e <> ResponseArrives key true ->
  key ∈ pendingUpdates d -> key ∈ pendingUpdates (debounce_step e d).
Proof.
  intros He Hin. destruct e as [activeSheet row col value | id | key' ok];
    cbn [debounce_step].
  - cbn. set_solver.
  - unfold timerFires. destruct (timers d !! id) as [[? ?]|]; exact Hin.
  - cbn. destruct ok; [|exact Hin].
    apply elem_of_difference. split; [exact Hin|].
    intros Heq%elem_of_singleton. subst. contradiction.
Qed.

(** X26. The key of a changed cell stays in [pendingUpdates] until a
    successful response for that key arrives: nothing else removes it, in
    particular not a failed update, after which the count of changes in
    progress never goes back by itself. *)
Theorem pending_until_successful_response (events tail : list DebounceEvent)
    (activeSheet : string) (row col : Z) (value : string) :
  List.Forall
    (fun e => e <> ResponseArrives (cellKey activeSheet row col) true) tail ->
  cellKey activeSheet row col
  ∈ pendingUpdates
      (debounce_run (events ++ CellChanged activeSheet row col value :: tail)
                    debounce_initial).
Proof.
  intros Htail. rewrite debounce_run_app.
  set (d := debounce_run events debounce_initial).
  change (debounce_run (CellChanged activeSheet row col value :: tail) d)
    with (debounce_run tail (scheduleUpdate activeSheet row col value d)).
  assert (Hin : cellKey activeSheet row col
                ∈ pendingUpdates (scheduleUpdate activeSheet row col value d))
    by (cbn; set_solver).
  revert Hin. generalize (scheduleUpdate activeSheet row col value d).
  induction Htail as [|e tail He Htail IH]; intros d' Hin; [exact Hin|].
  apply IH, debounce_step_keeps_pending; assumption.
Qed.

End Debouncing.

Section DebouncingExamples.
Local Open Scope string_scope.

Lemma at_most_one_timer_per_cell_witness :
  let events := [CellChanged "Feuil1" 0 0 "a"; CellChanged "Feuil1" 0 0 "ab"] in
  let body := {| sheet_name := "Feuil1"; cu_row := 0; cu_col := 0;
                 cu_value := "ab" |} in
  timers (debounce_run events debounce_initial) !! 2%nat
  = Some ("Feuil1-0-0", body)
  /\ 2%nat = 2%nat /\ body = body.
Proof.
  intros events body.
  assert (Hl : timers (debounce_run events debounce_initial) !! 2%nat
               = Some ("Feuil1-0-0", body)) by (vm_compute; reflexivity).
  split; [exact Hl|].
  apply (at_most_one_timer_per_cell events 2 2 "Feuil1-0-0" "Feuil1-0-0"
           body body Hl Hl); reflexivity.
Defined.

Lemma only_last_value_of_a_cell_is_sent_witness :
  exists new,
    requests (debounce_run
                ([CellChanged "Feuil1" 0 0 "a"]
                 ++ CellChanged "Feuil1" 0 0 "ab"
                    :: [TimerFires 1; CellChanged "Feuil1" 0 1 "x";
                        TimerFires 2])%list
                debounce_initial)
    = (requests (debounce_run [CellChanged "Feuil1" 0 0 "a"] debounce_initial)
       ++ new)%list
    /\ (List.filter (same_cell "Feuil1" 0 0) new = []
        \/ List.filter (same_cell "Feuil1" 0 0) new
           = [{| sheet_name := "Feuil1"; cu_row := 0; cu_col := 0;
                 cu_value := "ab" |}]).
Proof.
  apply (only_last_value_of_a_cell_is_sent
           [CellChanged "Feuil1" 0 0 "a"]
           [TimerFires 1; CellChanged "Feuil1" 0 1 "x"; TimerFires 2]
           "Feuil1" 0 0 "ab").
  repeat constructor.
Defined.

Lemma change_keeps_timers_of_other_cells_witness :
  let body := {| sheet_name := "Feuil1"; cu_row := 0; cu_col := 0;
                 cu_value := "a" |} in
  timers (scheduleUpdate "Feuil1" 0 1 "x"
            (debounce_run [CellChanged "Feuil1" 0 0 "a"] debounce_initial))
    !! 1%nat
  = Some ("Feuil1-0-0", body).
Proof.
  intros body.
  apply (change_keeps_timers_of_other_cells
           [CellChanged "Feuil1" 0 0 "a"] "Feuil1" 0 1 "x" 1 "Feuil1-0-0" body).
  - vm_compute. reflexivity.
  - lia.
  - lia.
  - simpl. lia.
  - simpl. lia.
  - reflexivity.
Defined.

Lemma pending_until_successful_response_witness :
  cellKey "Feuil1" 0 0
  ∈ pendingUpdates
      (debounce_run
         ([] ++ CellChanged "Feuil1" 0 0 "a"
             :: [TimerFires 1; ResponseArrives (cellKey "Feuil1" 0 0) false])%list
         debounce_initial).
Proof.
  apply (pending_until_successful_response
           [] [TimerFires 1; ResponseArrives (cellKey "Feuil1" 0 0) false]
           "Feuil1" 0 0 "a").
  repeat constructor; discriminate.
Defined.

End DebouncingExamples.
